(** * WebP Master: the batch conversion pipeline

    A shallow embedding of the file-handling and conversion services
    ([src/services/FileHandler.ts], [src/services/ImageConverter.ts]), of
    the statistics kept by [Application.ts] and of the constants of
    [types/index.ts], followed by the properties of the specification that
    were checked against them.

    Conventions.
    - A TypeScript [number] that the program only ever uses as an exact
      integer (byte sizes, which the File API declares as unsigned long
      long, counters, millisecond timestamps, array indices and strides) is
      a [Z]; this is exact below 2^53.  A [number] that comes out of a
      division (the compression ratio and the running averages) is a
      binary64 [float], computed with the primitive IEEE operations.
    - A [string] is the UTF-8 byte string of the source literal; template
      literals are concatenations.
    - A method that may throw returns a [completion].
    - An [async] method is cut at its [await]s: the part that runs
      synchronously is a function on the state, and what the browser does
      in between arrives as an [Input]. *)

From Stdlib Require Import ZArith Floats Lia.
From stdpp Require Import gmap strings list pretty.

Open Scope Z_scope.

(** ** JavaScript values and built-ins *)

Module JS.

(** Values that the code throws or rejects with. *)
Inductive completion (A : Type) : Type :=
| Normal (a : A)
| Throw (message : string).
Arguments Normal {A} a.
Arguments Throw {A} message.

Definition bind {A B} (c : completion A) (k : A -> completion B) : completion B :=
  match c with
  | Normal a => k a
  | Throw m => Throw m
  end.

(** [Number] of an integer: the nearest binary64 value. *)
Definition Z2F (z : Z) : float := SF2Prim (binary_normalize 53 1024 z 0 false).

(** [Math.round] (ECMAScript 21.3.2.28): a value that is not finite or is
    already integral is returned as it is; otherwise the closest integer,
    the one towards +infinity on a tie, with the sign of zero kept for
    results in [-0.5, 0).  The rounding is exact: [x] is [n / d] with
    [d = 2^(-e)]. *)
Definition Math_round (x : float) : float :=
  match Prim2SF x with
  | S754_finite s m e =>
      if 0 <=? e then x
      else
        let d := 2 ^ (- e) in
        let n := if s then Z.neg m else Z.pos m in
        let r := (2 * n + d) / (2 * d) in
        if r =? 0 then (if s then (-0)%float else 0%float) else Z2F r
  | _ => x
  end.

(** [String.prototype.includes]. *)
Fixpoint includes (s search : string) : bool :=
  String.prefix search s
  || match s with
     | EmptyString => false
     | String _ s' => includes s' search
     end.

(** [Array.prototype.includes] on an array of strings. *)
Definition Array_includes (l : list string) (x : string) : bool :=
  existsb (String.eqb x) l.

(** [Array.prototype.slice(start, end)] with integer arguments: a negative
    index counts from the end, and both are clamped to the array. *)
Definition slice {A} (l : list A) (start end_ : Z) : list A :=
  let len := Z.of_nat (length l) in
  let k := if start <? 0 then Z.max (len + start) 0 else Z.min start len in
  let final := if end_ <? 0 then Z.max (len + end_) 0 else Z.min end_ len in
  take (Z.to_nat (final - k)) (drop (Z.to_nat k) l).

(** [arr.push(x)]. *)
Definition push {A} (arr : list A) (x : A) : list A := arr ++ [x].

(** [arr.push(...xs)]. *)
Definition push_all {A} (arr xs : list A) : list A := arr ++ xs.

End JS.

Import JS.

(** ** Types ([types/index.ts]) *)

(** The browser's [File]: what the code reads of it. *)
Module File.
Record t : Type := mk
  { name : string; size : Z; type : string; lastModified : Z }.
End File.

Module FileInfo.
Record t : Type := mk
  { file : File.t; name : string; size : Z; type : string; lastModified : Z }.
End FileInfo.

Module Blob.
Record t : Type := mk { size : Z; type : string }.
End Blob.

Module HTMLImageElement.
Record t : Type := mk { naturalWidth : Z; naturalHeight : Z }.
End HTMLImageElement.

Inductive ConversionStatus := PENDING | STATUS_PROCESSING | COMPLETED | FAILED.

Inductive ProcessingStage := READING | PROCESSING | CONVERTING | FINALIZING.

Inductive ErrorType :=
| UNSUPPORTED_FORMAT
| FILE_TOO_LARGE
| PROCESSING_ERROR
| BROWSER_COMPATIBILITY
| UNKNOWN_ERROR.

Module ConversionResult.
Record t : Type := mk
  { id : string;
    originalFile : FileInfo.t;
    convertedBlob : Blob.t;
    convertedSize : Z;
    compressionRatio : float;
    originalUrl : string;
    convertedUrl : string;
    processingTime : Z;
    status : ConversionStatus }.
End ConversionResult.

Module ConversionConfig.
Record t : Type := mk
  { quality : float;
    format : string;
    enableProgressReporting : bool;
    maxFileSize : Z;
    maxConcurrentConversions : Z }.
End ConversionConfig.

Module ProgressInfo.
Record t : Type := mk
  { id : string;
    fileName : string;
    progress : Z;
    stage : ProcessingStage;
    message : string }.
End ProgressInfo.

Module ConversionError.
Record t : Type := mk
  { id : string;
    fileName : string;
    errorType : ErrorType;
    message : string;
    details : string;
    timestamp : Z }.
End ConversionError.

Module ConversionStats.
Record t : Type := mk
  { totalFilesProcessed : Z;
    totalSizeReduced : Z;
    averageCompressionRatio : float;
    averageProcessingTime : float;
    successfulConversions : Z;
    failedConversions : Z }.
End ConversionStats.

Module ValidationResult.
Record t : Type := mk
  { isValid : bool; errors : list string; warnings : list string }.
End ValidationResult.

Definition DEFAULT_CONVERSION_CONFIG : ConversionConfig.t :=
  {| ConversionConfig.quality := 0x1.999999999999ap-1%float; (* 0.8 *)
     ConversionConfig.format := "webp";
     ConversionConfig.enableProgressReporting := true;
     ConversionConfig.maxFileSize := 10 * 1024 * 1024;
     ConversionConfig.maxConcurrentConversions := 3 |}.

Definition SUPPORTED_FORMATS : list string :=
  ["image/png"; "image/jpeg"; "image/jpg"]%string.

Definition MAX_FILE_SIZE_MB : Z := 10.
Definition MAX_FILES_PER_BATCH : Z := 20.

(** ** FileHandler ([services/FileHandler.ts]) *)

Module FileHandler.

(** The fields of the class; the list of file-selection listeners is not
    part of the model. *)
Record t : Type := mk
  { selectedFiles : list FileInfo.t; isDisposed : bool }.

Definition ensureNotDisposed (this : t) : completion unit :=
  if isDisposed this then Throw "FileHandler has been disposed" else Normal tt.

(** The body of the [for ... of] loop of [acceptFiles]. *)
Definition acceptFiles_body (fileInfos : list FileInfo.t) (file : File.t)
  : list FileInfo.t :=
  let fileInfo :=
    {| FileInfo.file := file;
       FileInfo.name := File.name file;
       FileInfo.size := File.size file;
       FileInfo.type := File.type file;
       FileInfo.lastModified := File.lastModified file |} in
  push fileInfos fileInfo.

Definition acceptFiles (this : t) (files : list File.t)
  : completion (list FileInfo.t) :=
  bind (ensureNotDisposed this) (fun _ =>
  let fileArray := files in
  Normal (fold_left acceptFiles_body fileArray [])).

Section Validation.

(** [formatFileSize] renders a byte count for display through
    [Math.log], [toFixed] and [parseFloat]; its text only appears inside
    messages, and it is left as a parameter. *)
Variable formatFileSize : Z -> string.

Definition validateSingleFile (fileInfo : FileInfo.t) : ValidationResult.t :=
  let errors : list string := [] in
  let warnings : list string := [] in
  let errors :=
    if negb (Array_includes SUPPORTED_FORMATS (FileInfo.type fileInfo))
    then push errors
           (FileInfo.name fileInfo
            +:+ ": サポートされていないファイル形式です（"
            +:+ FileInfo.type fileInfo +:+ "）🚫")
    else errors in
  let maxSizeBytes := MAX_FILE_SIZE_MB * 1024 * 1024 in
  let errors :=
    if maxSizeBytes <? FileInfo.size fileInfo
    then push errors
           (FileInfo.name fileInfo
            +:+ ": ファイルサイズが大きすぎます（"
            +:+ formatFileSize (FileInfo.size fileInfo)
            +:+ " > " +:+ pretty MAX_FILE_SIZE_MB +:+ "MB）📏")
    else errors in
  let errors :=
    if FileInfo.size fileInfo =? 0
    then push errors (FileInfo.name fileInfo +:+ ": ファイルが空です 📄")
    else errors in
  let warningThreshold := 5 * 1024 * 1024 in
  let warnings :=
    if warningThreshold <? FileInfo.size fileInfo
    then push warnings
           (FileInfo.name fileInfo
            +:+ ": 大きなファイルです（"
            +:+ formatFileSize (FileInfo.size fileInfo)
            +:+ "）。処理に時間がかかる可能性があります ⚠️")
    else warnings in
  {| ValidationResult.isValid := bool_decide (length errors = 0%nat);
     ValidationResult.errors := errors;
     ValidationResult.warnings := warnings |}.

(** The body of the [for ... of] loop of [validateFiles], on the pair of
    arrays it grows. *)
Definition validateFiles_body (acc : list string * list string)
    (fileInfo : FileInfo.t) : list string * list string :=
  let fileValidation := validateSingleFile fileInfo in
  (push_all (fst acc) (ValidationResult.errors fileValidation),
   push_all (snd acc) (ValidationResult.warnings fileValidation)).

Definition validateFiles (this : t) (files : list FileInfo.t)
  : completion ValidationResult.t :=
  bind (ensureNotDisposed this) (fun _ =>
  let errors : list string := [] in
  let warnings : list string := [] in
  let errors :=
    if Z.of_nat (length files) =? 0
    then push errors "ファイルが選択されていません 🚫"
    else errors in
  let errors :=
    if MAX_FILES_PER_BATCH <? Z.of_nat (length files)
    then push errors
           ("一度に処理できるファイル数は"
            +:+ pretty MAX_FILES_PER_BATCH +:+ "個までです 📝")
    else errors in
  let '(errors, warnings) :=
    fold_left validateFiles_body files (errors, warnings) in
  Normal
    {| ValidationResult.isValid := bool_decide (length errors = 0%nat);
       ValidationResult.errors := errors;
       ValidationResult.warnings := warnings |}).

End Validation.

End FileHandler.

(** ** ImageConverter ([services/ImageConverter.ts]) *)

Module ImageConverter.

(** What [convertToWebP] can catch or reject with. *)
Inductive JsValue :=
| ErrorObject (message : string)
| ConversionErrorObject (e : ConversionError.t)
| OtherValue (text : string).

(** [String(error)]. *)
Definition String_of (v : JsValue) : string :=
  match v with
  | ErrorObject m => "Error: " +:+ m
  | ConversionErrorObject _ => "[object Object]"
  | OtherValue s => s
  end.

(** The ways the promise of [readFileAsImage] rejects. *)
Inductive ReadFailure := FailedToReadFile | FailedToLoadImage | FileReaderError.

Definition ReadFailure_message (f : ReadFailure) : string :=
  match f with
  | FailedToReadFile => "Failed to read file"
  | FailedToLoadImage => "Failed to load image"
  | FileReaderError => "FileReader error"
  end.

Inductive ReadOutcome :=
| ImageLoaded (img : HTMLImageElement.t)
| ReadRejected (f : ReadFailure).

Inductive Event :=
| ProgressEvent (p : ProgressInfo.t)
| CompleteEvent (r : ConversionResult.t)
| ErrorEvent (e : ConversionError.t).

(** The locals of one call of [convertToWebP] that live across its
    [await]s.  [abortController] is the address of the controller in the
    store of the converter. *)
Record Frame : Type := mkFrame
  { file : FileInfo.t;
    config : ConversionConfig.t;
    conversionId : string;
    abortController : nat;
    startTime : Z }.

(** The [await] at which a call is suspended. *)
Inductive AwaitPoint :=
| AtRead                                         (* await this.readFileAsImage(file.file) *)
| AtProcess (imageData : HTMLImageElement.t)     (* await this.processImage(imageData) *)
| AtBlob (processedImage : HTMLImageElement.t).  (* await this.convertToWebPBlob(...) *)

(** The promise returned by one call of [convertToWebP]. *)
Inductive Promise :=
| Pending (fr : Frame) (at_ : AwaitPoint)
| Fulfilled (result : ConversionResult.t)
| Rejected (reason : JsValue).

(** The converter object.  [controllers] is the store of the
    [AbortController]s created so far ([signal.aborted] of each, by
    address); [promises] are the calls of [convertToWebP] made so far, in
    call order; [log] is every call of [reportProgress],
    [notifyConversionComplete] and [notifyConversionError] so far, oldest
    first, each with the index of the call that made it.  The listener
    arrays are not part of the model: a listener that throws is caught
    and logged by the three notifiers and changes nothing here, and a
    listener that calls a method of the converter is an [Input] after the
    synchronous run that notified it. *)
Record t : Type := mk
  { activeConversions : gmap string nat;
    controllers : list bool;
    isDisposed : bool;
    canvas : Z * Z;
    promises : list Promise;
    log : list (nat * Event) }.

Definition set_activeConversions (f : gmap string nat -> gmap string nat) (this : t) : t :=
  mk (f (activeConversions this)) (controllers this) (isDisposed this)
     (canvas this) (promises this) (log this).
Definition set_controllers (f : list bool -> list bool) (this : t) : t :=
  mk (activeConversions this) (f (controllers this)) (isDisposed this)
     (canvas this) (promises this) (log this).
Definition set_isDisposed (b : bool) (this : t) : t :=
  mk (activeConversions this) (controllers this) b
     (canvas this) (promises this) (log this).
Definition set_canvas (c : Z * Z) (this : t) : t :=
  mk (activeConversions this) (controllers this) (isDisposed this)
     c (promises this) (log this).
Definition set_promises (f : list Promise -> list Promise) (this : t) : t :=
  mk (activeConversions this) (controllers this) (isDisposed this)
     (canvas this) (f (promises this)) (log this).
Definition set_log (f : list (nat * Event) -> list (nat * Event)) (this : t) : t :=
  mk (activeConversions this) (controllers this) (isDisposed this)
     (canvas this) (promises this) (f (log this)).

(** The converter after a successful construction. *)
Definition new : t :=
  {| activeConversions := ∅; controllers := []; isDisposed := false;
     canvas := (300, 150); promises := []; log := [] |}.

(** *** Private methods *)

Definition ensureNotDisposed (this : t) : completion unit :=
  if isDisposed this then Throw "ImageConverter has been disposed" else Normal tt.

Definition calculateCompressionRatio (originalSize convertedSize : Z) : float :=
  if originalSize =? 0 then 0%float
  else Math_round (((Z2F originalSize - Z2F convertedSize) / Z2F originalSize) * 100)%float.

(** [controller.signal.aborted]. *)
Definition aborted (this : t) (controller : nat) : bool :=
  default false (controllers this !! controller).

Definition checkAborted (this : t) (controller : nat) : completion unit :=
  if aborted this controller then Throw "Conversion was cancelled" else Normal tt.

Definition createConversionError (id fileName : string) (error : JsValue) (now : Z)
  : ConversionError.t :=
  let classified : ErrorType * string :=
    match error with
    | ErrorObject message =>
        if includes message "cancelled"
        then (PROCESSING_ERROR, "変換がキャンセルされました 🚫"%string)
        else if includes message "WebP"
        then (BROWSER_COMPATIBILITY, "WebP形式がサポートされていません 🚫"%string)
        else if includes message "size" || includes message "large"
        then (FILE_TOO_LARGE, "ファイルサイズが大きすぎます 📏"%string)
        else (PROCESSING_ERROR,
              "処理中にエラーが発生しました: " +:+ message +:+ " ⚠️")
    | _ => (UNKNOWN_ERROR, "Unknown error occurred"%string)
    end in
  {| ConversionError.id := id;
     ConversionError.fileName := fileName;
     ConversionError.errorType := fst classified;
     ConversionError.message := snd classified;
     ConversionError.details := String_of error;
     ConversionError.timestamp := now |}.

(** [reportProgress], [notifyConversionComplete] and
    [notifyConversionError], made by call number [k]. *)
Definition emit (k : nat) (ev : Event) (this : t) : t :=
  set_log (fun l => l ++ [(k, ev)]) this.

Definition reportProgress (k : nat) (progress : ProgressInfo.t) : t -> t :=
  emit k (ProgressEvent progress).
Definition notifyConversionComplete (k : nat) (result : ConversionResult.t) : t -> t :=
  emit k (CompleteEvent result).
Definition notifyConversionError (k : nat) (error : ConversionError.t) : t -> t :=
  emit k (ErrorEvent error).

(** The four progress reports of [convertToWebP]. *)
Definition progressOf (fr : Frame) (stage : ProcessingStage) : ProgressInfo.t :=
  {| ProgressInfo.id := conversionId fr;
     ProgressInfo.fileName := FileInfo.name (file fr);
     ProgressInfo.progress :=
       match stage with
       | READING => 0
       | PROCESSING => 25
       | CONVERTING => 50
       | FINALIZING => 100
       end;
     ProgressInfo.stage := stage;
     ProgressInfo.message :=
       match stage with
       | READING => "ファイルを読み込み中... 📖"
       | PROCESSING => "画像を処理中... 🎨"
       | CONVERTING => "WebP形式に変換中... 🔄"
       | FINALIZING => "変換完了！ ✅"
       end |}.

(** The promise of call [k] settles or moves to its next [await]. *)
Definition setPromise (k : nat) (p : Promise) : t -> t :=
  set_promises (fun ps => <[k := p]> ps).

(** The [catch] block of [convertToWebP]. *)
Definition catchBlock (k : nat) (fr : Frame) (error : JsValue) (now : Z) (this : t) : t :=
  let this := set_activeConversions (delete (conversionId fr)) this in
  let conversionError :=
    createConversionError (conversionId fr) (FileInfo.name (file fr)) error now in
  let this := notifyConversionError k conversionError this in
  setPromise k (Rejected (ConversionErrorObject conversionError)) this.

Section WithIds.

(** [generateId] concatenates the clock and [Math.random] in base 36:
    the identifiers it returns are an input of the model, the [n]-th
    call returning [generateId n].  Every call that generates an
    identifier also creates one controller, so the number of
    controllers counts the calls. *)
Variable generateId : nat -> string.

(** *** [convertToWebP], from the call to the first [await] *)
Definition convertToWebP (file : FileInfo.t) (config : ConversionConfig.t)
    (now : Z) (this : t) : t :=
  let k := length (promises this) in
  match ensureNotDisposed this with
  | Throw m => set_promises (fun ps => push ps (Rejected (ErrorObject m))) this
  | Normal _ =>
      let conversionId := generateId (length (controllers this)) in
      let abortController := length (controllers this) in
      let this := set_controllers (fun cs => push cs false) this in
      let this := set_activeConversions (<[conversionId := abortController]>) this in
      let fr := mkFrame file config conversionId abortController now in
      let this := set_promises (fun ps => push ps (Pending fr AtRead)) this in
      reportProgress k (progressOf fr READING) this
  end.

(** *** [convertToWebP], resumed after [readFileAsImage] *)
Definition afterRead (k : nat) (outcome : ReadOutcome) (now : Z) (this : t) : t :=
  match promises this !! k with
  | Some (Pending fr AtRead) =>
      match outcome with
      | ReadRejected f => catchBlock k fr (ErrorObject (ReadFailure_message f)) now this
      | ImageLoaded imageData =>
          match checkAborted this (abortController fr) with
          | Throw m => catchBlock k fr (ErrorObject m) now this
          | Normal _ =>
              let this := reportProgress k (progressOf fr PROCESSING) this in
              setPromise k (Pending fr (AtProcess imageData)) this
          end
      end
  | _ => this
  end.

(** [processImage] returns its argument. *)
Definition processImage (image : HTMLImageElement.t) : HTMLImageElement.t := image.

(** *** [convertToWebP], resumed after [processImage]; the synchronous
    part of [convertToWebPBlob] sizes the shared canvas and draws. *)
Definition afterProcess (k : nat) (now : Z) (this : t) : t :=
  match promises this !! k with
  | Some (Pending fr (AtProcess imageData)) =>
      let processedImage := processImage imageData in
      match checkAborted this (abortController fr) with
      | Throw m => catchBlock k fr (ErrorObject m) now this
      | Normal _ =>
          let this := reportProgress k (progressOf fr CONVERTING) this in
          let this :=
            set_canvas (HTMLImageElement.naturalWidth processedImage,
                        HTMLImageElement.naturalHeight processedImage) this in
          setPromise k (Pending fr (AtBlob processedImage)) this
      end
  | _ => this
  end.

(** *** [convertToWebP], resumed after [convertToWebPBlob]: [blob] is
    what [canvas.toBlob] passed to its callback, [originalUrl] and
    [convertedUrl] are what [URL.createObjectURL] returns. *)
Definition afterBlob (k : nat) (blob : option Blob.t) (originalUrl convertedUrl : string)
    (now : Z) (this : t) : t :=
  match promises this !! k with
  | Some (Pending fr (AtBlob processedImage)) =>
      match blob with
      | None => catchBlock k fr (ErrorObject "Failed to convert image to WebP") now this
      | Some webpBlob =>
          match checkAborted this (abortController fr) with
          | Throw m => catchBlock k fr (ErrorObject m) now this
          | Normal _ =>
              let this := reportProgress k (progressOf fr FINALIZING) this in
              let processingTime := now - startTime fr in
              let result :=
                {| ConversionResult.id := conversionId fr;
                   ConversionResult.originalFile := file fr;
                   ConversionResult.convertedBlob := webpBlob;
                   ConversionResult.convertedSize := Blob.size webpBlob;
                   ConversionResult.compressionRatio :=
                     calculateCompressionRatio (FileInfo.size (file fr)) (Blob.size webpBlob);
                   ConversionResult.originalUrl := originalUrl;
                   ConversionResult.convertedUrl := convertedUrl;
                   ConversionResult.processingTime := processingTime;
                   ConversionResult.status := COMPLETED |} in
              let this := set_activeConversions (delete (conversionId fr)) this in
              let this := notifyConversionComplete k result this in
              setPromise k (Fulfilled result) this
          end
      end
  | _ => this
  end.

(** *** Public methods *)

(** [abortController.abort()]. *)
Definition abort (controller : nat) : t -> t :=
  set_controllers (fun cs => <[controller := true]> cs).

Definition cancelConversion (id : string) (this : t) : completion t :=
  bind (ensureNotDisposed this) (fun _ =>
  match activeConversions this !! id with
  | Some abortController =>
      let this := abort abortController this in
      Normal (set_activeConversions (delete id) this)
  | None => Normal this
  end).

Definition cancelAllConversions (this : t) : completion t :=
  bind (ensureNotDisposed this) (fun _ =>
  let this :=
    map_fold (fun _ controller this => abort controller this)
             this (activeConversions this) in
  Normal (set_activeConversions (fun _ => ∅) this)).

Definition dispose (this : t) : t :=
  if isDisposed this then this
  else
    match cancelAllConversions this with
    | Normal this => set_isDisposed true this
    | Throw _ => this
    end.

(** *** [convertMultiple] *)

(** [Promise.all(batchPromises)] as seen when its continuation runs:
    rejected as soon as one promise is rejected, fulfilled with the values
    in call order once all are fulfilled. *)
Inductive Settlement :=
| StillPending
| AllFulfilled (values : list ConversionResult.t)
| SomeRejected.

Definition isRejected (this : t) (k : nat) : bool :=
  match promises this !! k with
  | Some (Rejected _) => true
  | _ => false
  end.

Definition valueOf (this : t) (k : nat) : option ConversionResult.t :=
  match promises this !! k with
  | Some (Fulfilled r) => Some r
  | _ => None
  end.

Definition Promise_all (this : t) (batchPromises : list nat) : Settlement :=
  if existsb (isRejected this) batchPromises then SomeRejected
  else
    match mapM (valueOf this) batchPromises with
    | Some values => AllFulfilled values
    | None => StillPending
    end.

(** The call of [convertMultiple]: suspended at
    [await Promise.all(batchPromises)] with its locals [i] and [results],
    returned, or thrown. *)
Inductive Driver :=
| Suspended (i : Z) (results : list ConversionResult.t) (batchPromises : list nat)
| Returned (results : list ConversionResult.t)
| Thrown (message : string).

Record System : Type := mkSystem { converter : t; driver : Driver }.

(** What happens between two synchronous runs of the converter's code: an
    awaited operation of call [k] completes, the continuation of
    [convertMultiple] is run, or a public method is called from outside. *)
Inductive Input :=
| ReadSettled (k : nat) (outcome : ReadOutcome)
| ProcessSettled (k : nat)
| BlobSettled (k : nat) (blob : option Blob.t) (originalUrl convertedUrl : string)
| BatchSettled
| CancelConversion (id : string)
| CancelAllConversions
| Dispose
| ConvertToWebP (file : FileInfo.t) (config : ConversionConfig.t).

Section WithBatch.

Variable files : list FileInfo.t.
Variable config : ConversionConfig.t.

(** One test of the [for] loop and, when it passes, the body up to
    the [await]: the calls of [batch.map] are made in order, so the
    promises of the batch are the next [length batch] ones. *)
Definition loopTest (i : Z) (results : list ConversionResult.t) (now : Z) (this : t)
  : System :=
  let maxConcurrent := ConversionConfig.maxConcurrentConversions config in
  if i <? Z.of_nat (length files) then
    let batch := slice files i (i + maxConcurrent) in
    let first := length (promises this) in
    let this := fold_left (fun this file => convertToWebP file config now this) batch this in
    mkSystem this (Suspended i results (seq first (length batch)))
  else mkSystem this (Returned results).

(** [convertMultiple], from the call to the first [await]. *)
Definition convertMultiple (now : Z) (this : t) : System :=
  match ensureNotDisposed this with
  | Throw m => mkSystem this (Thrown m)
  | Normal _ =>
      let results : list ConversionResult.t := [] in
      loopTest 0 results now this
  end.

(** [convertMultiple], resumed after [await Promise.all(batchPromises)]:
    the [try] pushes the values, the [catch] only logs to the console;
    both go on with [i += maxConcurrent]. *)
Definition afterBatch (now : Z) (sys : System) : System :=
  let maxConcurrent := ConversionConfig.maxConcurrentConversions config in
  match driver sys with
  | Suspended i results batchPromises =>
      match Promise_all (converter sys) batchPromises with
      | StillPending => sys
      | AllFulfilled batchResults =>
          loopTest (i + maxConcurrent) (push_all results batchResults) now (converter sys)
      | SomeRejected =>
          loopTest (i + maxConcurrent) results now (converter sys)
      end
  | _ => sys
  end.

(** A call from outside that throws leaves the converter as it is. *)
Definition orUnchanged (this : t) (c : completion t) : t :=
  match c with
  | Normal this' => this'
  | Throw _ => this
  end.

Definition step (sys : System) (input : Z * Input) : System :=
  let now := fst input in
  let this := converter sys in
  match snd input with
  | ReadSettled k outcome => mkSystem (afterRead k outcome now this) (driver sys)
  | ProcessSettled k => mkSystem (afterProcess k now this) (driver sys)
  | BlobSettled k blob originalUrl convertedUrl =>
      mkSystem (afterBlob k blob originalUrl convertedUrl now this) (driver sys)
  | BatchSettled => afterBatch now sys
  | CancelConversion id => mkSystem (orUnchanged this (cancelConversion id this)) (driver sys)
  | CancelAllConversions => mkSystem (orUnchanged this (cancelAllConversions this)) (driver sys)
  | Dispose => mkSystem (dispose this) (driver sys)
  | ConvertToWebP file config =>
      mkSystem (convertToWebP file config now this) (driver sys)
  end.

(** A run: [convertMultiple] is called at time [now] on the converter
    [this], then the inputs arrive in order. *)
Definition run (now : Z) (this : t) (inputs : list (Z * Input)) : System :=
  fold_left step inputs (convertMultiple now this).

End WithBatch.

End WithIds.

End ImageConverter.

(** ** Statistics ([Application.ts]) *)

Module Application.

Definition initializeStats : ConversionStats.t :=
  {| ConversionStats.totalFilesProcessed := 0;
     ConversionStats.totalSizeReduced := 0;
     ConversionStats.averageCompressionRatio := 0%float;
     ConversionStats.averageProcessingTime := 0%float;
     ConversionStats.successfulConversions := 0;
     ConversionStats.failedConversions := 0 |}.

Definition updateStats (stats : ConversionStats.t) (result : ConversionResult.t)
  : ConversionStats.t :=
  let totalFilesProcessed := ConversionStats.totalFilesProcessed stats + 1 in
  let successfulConversions := ConversionStats.successfulConversions stats + 1 in
  let sizeReduction :=
    FileInfo.size (ConversionResult.originalFile result)
    - ConversionResult.convertedSize result in
  let totalSizeReduced := ConversionStats.totalSizeReduced stats + sizeReduction in
  let averageCompressionRatio :=
    ((ConversionStats.averageCompressionRatio stats * Z2F (successfulConversions - 1)
      + ConversionResult.compressionRatio result)
     / Z2F successfulConversions)%float in
  let averageProcessingTime :=
    ((ConversionStats.averageProcessingTime stats * Z2F (successfulConversions - 1)
      + Z2F (ConversionResult.processingTime result))
     / Z2F successfulConversions)%float in
  {| ConversionStats.totalFilesProcessed := totalFilesProcessed;
     ConversionStats.totalSizeReduced := totalSizeReduced;
     ConversionStats.averageCompressionRatio := averageCompressionRatio;
     ConversionStats.averageProcessingTime := averageProcessingTime;
     ConversionStats.successfulConversions := successfulConversions;
     ConversionStats.failedConversions := ConversionStats.failedConversions stats |}.

(** The listeners that [setupEventSubscriptions] registers on the
    converter, as they act on [this.stats]; what they show on the page is
    not part of the model. *)
Definition handleConversionProgress (stats : ConversionStats.t) (progress : ProgressInfo.t)
  : ConversionStats.t := stats.

Definition handleConversionComplete (stats : ConversionStats.t) (result : ConversionResult.t)
  : ConversionStats.t := updateStats stats result.

Definition handleConversionError (stats : ConversionStats.t) (error : ConversionError.t)
  : ConversionStats.t :=
  {| ConversionStats.totalFilesProcessed := ConversionStats.totalFilesProcessed stats;
     ConversionStats.totalSizeReduced := ConversionStats.totalSizeReduced stats;
     ConversionStats.averageCompressionRatio := ConversionStats.averageCompressionRatio stats;
     ConversionStats.averageProcessingTime := ConversionStats.averageProcessingTime stats;
     ConversionStats.successfulConversions := ConversionStats.successfulConversions stats;
     ConversionStats.failedConversions := ConversionStats.failedConversions stats + 1 |}.

Definition handle (stats : ConversionStats.t) (ev : ImageConverter.Event)
  : ConversionStats.t :=
  match ev with
  | ImageConverter.ProgressEvent p => handleConversionProgress stats p
  | ImageConverter.CompleteEvent r => handleConversionComplete stats r
  | ImageConverter.ErrorEvent e => handleConversionError stats e
  end.

(** The statistics after the listeners have received [events] in order. *)
Definition statsAfter (stats : ConversionStats.t) (events : list ImageConverter.Event)
  : ConversionStats.t :=
  fold_left handle events stats.

End Application.

(** ** Listener arrays

    The four services keep their listeners in arrays and share one
    pattern: [on...] pushes the callback and returns a subscription whose
    [unsubscribe] removes the first occurrence found by [indexOf].  A
    callback is compared by reference: it is the address of its closure. *)

Module Subscriptions.

(** [callbacks.indexOf(callback)]. *)
Fixpoint indexOf (callbacks : list nat) (callback : nat) : Z :=
  match callbacks with
  | [] => -1
  | c :: callbacks =>
      if Nat.eqb c callback then 0
      else
        let index := indexOf callbacks callback in
        if index <? 0 then -1 else index + 1
  end.

(** [callbacks.splice(index, 1)] for an index that is not negative. *)
Definition splice1 (callbacks : list nat) (index : Z) : list nat :=
  take (Z.to_nat index) callbacks ++ drop (S (Z.to_nat index)) callbacks.

(** [this.callbacks.push(callback)] of [on...]. *)
Definition subscribe (callbacks : list nat) (callback : nat) : list nat :=
  push callbacks callback.

(** The [unsubscribe] of the subscription that [on...] returned for
    [callback]. *)
Definition unsubscribe (callbacks : list nat) (callback : nat) : list nat :=
  let index := indexOf callbacks callback in
  if -1 <? index then splice1 callbacks index else callbacks.

(** [this.callbacks.forEach(callback => { try { callback(event) } catch ... })]:
    the calls made, in order.  What a callback does, and a callback that
    changes the array while it is traversed, are not part of the model. *)
Definition notify {E : Type} (callbacks : list nat) (event : E) : list (nat * E) :=
  map (fun callback => (callback, event)) callbacks.

End Subscriptions.

(** ** FileHandler: selection, listeners and disposal
    ([services/FileHandler.ts]) *)

Module FileSelection.

(** What a method throws or returns. *)
Inductive result (A : Type) : Type :=
| Done (a : A)
| Raised (v : ImageConverter.JsValue).
Arguments Done {A} a.
Arguments Raised {A} v.

(** The handler with its listener array; [delivered] is every call of a
    listener made by [notifyFileSelected] so far, oldest first. *)
Record t : Type := mk
  { handler : FileHandler.t;
    fileSelectedCallbacks : list nat;
    delivered : list (nat * list FileInfo.t) }.

Definition ensureNotDisposed {A} (this : t) (k : unit -> result A) : result A :=
  match FileHandler.ensureNotDisposed (handler this) with
  | Throw m => Raised (ImageConverter.ErrorObject m)
  | Normal _ => k tt
  end.

(** [Array.prototype.join(', ')]. *)
Definition join (l : list string) : string := String.concat ", " l.

Definition notifyFileSelected (files : list FileInfo.t) (this : t) : t :=
  mk (handler this) (fileSelectedCallbacks this)
     (delivered this ++ Subscriptions.notify (fileSelectedCallbacks this) files).

Section WithFormat.
Variable formatFileSize : Z -> string.

(** [processFileSelection]; [id] is what [generateId] returns and [now]
    what [Date.now] returns, should the batch be rejected. *)
Definition processFileSelection (files : list FileInfo.t) (id : string) (now : Z)
    (this : t) : result t :=
  ensureNotDisposed this (fun _ =>
  match FileHandler.validateFiles formatFileSize (handler this) files with
  | Throw m => Raised (ImageConverter.ErrorObject m)
  | Normal validation =>
      if negb (ValidationResult.isValid validation) then
        let error :=
          {| ConversionError.id := id;
             ConversionError.fileName := "Multiple files";
             ConversionError.errorType := UNSUPPORTED_FORMAT;
             ConversionError.message := join (ValidationResult.errors validation);
             ConversionError.details := join (ValidationResult.warnings validation);
             ConversionError.timestamp := now |} in
        Raised (ImageConverter.ConversionErrorObject error)
      else
        let this :=
          mk (FileHandler.mk files (FileHandler.isDisposed (handler this)))
             (fileSelectedCallbacks this) (delivered this) in
        Done (notifyFileSelected files this)
  end).

End WithFormat.

Definition onFilesSelected (callback : nat) (this : t) : result t :=
  ensureNotDisposed this (fun _ =>
  Done (mk (handler this)
           (Subscriptions.subscribe (fileSelectedCallbacks this) callback)
           (delivered this))).

(** The [unsubscribe] of a subscription; it does not test [isDisposed]. *)
Definition unsubscribe (callback : nat) (this : t) : t :=
  mk (handler this)
     (Subscriptions.unsubscribe (fileSelectedCallbacks this) callback)
     (delivered this).

Definition clearSelectedFiles (this : t) : result t :=
  ensureNotDisposed this (fun _ =>
  Done (mk (FileHandler.mk [] (FileHandler.isDisposed (handler this)))
           (fileSelectedCallbacks this) (delivered this))).

Definition getSelectedFiles (this : t) : result (list FileInfo.t) :=
  ensureNotDisposed this (fun _ =>
  Done (FileHandler.selectedFiles (handler this))).

Definition dispose (this : t) : t :=
  if FileHandler.isDisposed (handler this) then this
  else mk (FileHandler.mk [] true) [] (delivered this).

(** A handler after construction. *)
Definition new : t := mk (FileHandler.mk [] false) [] [].

End FileSelection.

(** ** PreviewManager: the name of a download
    ([services/PreviewManager.ts]) *)

Module PreviewManager.
Import Stdlib.Strings.Ascii.

(** A character that [[^/.]] matches. *)
Definition neitherSlashNorDot (c : ascii) : bool :=
  negb (Ascii.eqb c "/"%char) && negb (Ascii.eqb c "."%char).

Fixpoint allNeitherSlashNorDot (s : string) : bool :=
  match s with
  | EmptyString => true
  | String c s => neitherSlashNorDot c && allNeitherSlashNorDot s
  end.

(** Whether [/\.[^/.]+$/] matches at the start of [s] and up to its end. *)
Definition extensionHere (s : string) : bool :=
  match s with
  | String c rest =>
      Ascii.eqb c "."%char && negb (String.eqb rest "") && allNeitherSlashNorDot rest
  | EmptyString => false
  end.

(** [originalName.replace(/\.[^/.]+$/, '')]: the leftmost match is removed,
    and a match ends the string. *)
Fixpoint withoutExtension (s : string) : string :=
  if extensionHere s then EmptyString
  else
    match s with
    | EmptyString => EmptyString
    | String c s => String c (withoutExtension s)
    end.

Definition generateFileName (originalName : string) : string :=
  let nameWithoutExtension := withoutExtension originalName in
  nameWithoutExtension +:+ ".webp".

End PreviewManager.

(** * Properties *)

(** ** Vocabulary of the statements *)

Module Policy.

(** The descriptor [info] describes the file [file]. *)
Definition describes (file : File.t) (info : FileInfo.t) : Prop :=
  FileInfo.file info = file
  /\ FileInfo.name info = File.name file
  /\ FileInfo.size info = File.size file
  /\ FileInfo.type info = File.type file
  /\ FileInfo.lastModified info = File.lastModified file.

(** The three rules a single file can break. *)
Definition wrongFormat (f : FileInfo.t) : bool :=
  negb (bool_decide (FileInfo.type f = "image/png"
                     \/ FileInfo.type f = "image/jpeg"
                     \/ FileInfo.type f = "image/jpg")).
Definition oversized (f : FileInfo.t) : bool := 10 * 1024 * 1024 <? FileInfo.size f.
Definition empty (f : FileInfo.t) : bool := FileInfo.size f =? 0.

Definition violating (f : FileInfo.t) : bool :=
  wrongFormat f || oversized f || empty f.

(** How many of the three rules the file breaks. *)
Definition violations (f : FileInfo.t) : nat :=
  (if wrongFormat f then 1 else 0) + (if oversized f then 1 else 0)
  + (if empty f then 1 else 0).

(** A file within the format and size policy. *)
Definition withinPolicy (f : FileInfo.t) : Prop :=
  (FileInfo.type f = "image/png" \/ FileInfo.type f = "image/jpeg"
   \/ FileInfo.type f = "image/jpg")
  /\ 0 < FileInfo.size f <= 10 * 1024 * 1024.

(** The entries that concern the batch as a whole. *)
Definition batchEntries (files : list FileInfo.t) : nat :=
  (if bool_decide (files = []) then 1 else 0)
  + (if bool_decide (20 < length files)%nat then 1 else 0).

End Policy.

Module Trace.
Import ImageConverter.

(** The events that call number [k] of [convertToWebP] has emitted, oldest
    first. *)
Fixpoint eventsOf (k : nat) (l : list (nat * Event)) : list Event :=
  match l with
  | [] => []
  | (j, ev) :: l => if Nat.eqb j k then ev :: eventsOf k l else eventsOf k l
  end.

Definition progressOnly (ev : Event) : option ProgressInfo.t :=
  match ev with ProgressEvent p => Some p | _ => None end.
Definition completeOnly (ev : Event) : option ConversionResult.t :=
  match ev with CompleteEvent r => Some r | _ => None end.
Definition errorOnly (ev : Event) : option ConversionError.t :=
  match ev with ErrorEvent e => Some e | _ => None end.

(** The progress events of call [k], and the identifier, file name, stage
    and percentage of each. *)
Definition progressEventsOf (k : nat) (l : list (nat * Event)) : list ProgressInfo.t :=
  omap progressOnly (eventsOf k l).

Definition summary (p : ProgressInfo.t) : string * string * ProcessingStage * Z :=
  (ProgressInfo.id p, ProgressInfo.fileName p, ProgressInfo.stage p,
   ProgressInfo.progress p).

(** The first [n] progress reports of a call with frame [fr]. *)
Definition reports (fr : Frame) (n : nat) : list Event :=
  map (fun stage => ProgressEvent (progressOf fr stage))
      (take n [READING; PROCESSING; CONVERTING; FINALIZING]).

(** [r] is the result that a call with frame [fr] builds. *)
Definition resultOf (fr : Frame) (r : ConversionResult.t) : Prop :=
  ConversionResult.id r = conversionId fr
  /\ ConversionResult.originalFile r = file fr
  /\ ConversionResult.convertedSize r = Blob.size (ConversionResult.convertedBlob r)
  /\ ConversionResult.compressionRatio r
     = calculateCompressionRatio (FileInfo.size (file fr))
         (Blob.size (ConversionResult.convertedBlob r))
  /\ ConversionResult.status r = COMPLETED.

(** The events that account for the state of a promise. *)
Inductive accounts : Promise -> list Event -> Prop :=
| accounts_read fr :
    accounts (Pending fr AtRead) (reports fr 1)
| accounts_process fr imageData :
    accounts (Pending fr (AtProcess imageData)) (reports fr 2)
| accounts_blob fr processedImage :
    accounts (Pending fr (AtBlob processedImage)) (reports fr 3)
| accounts_fulfilled fr r :
    resultOf fr r ->
    accounts (Fulfilled r) (reports fr 4 ++ [CompleteEvent r])
| accounts_rejected fr n e :
    (1 <= n <= 3)%nat ->
    ConversionError.id e = conversionId fr ->
    ConversionError.fileName e = FileInfo.name (file fr) ->
    accounts (Rejected (ConversionErrorObject e)) (reports fr n ++ [ErrorEvent e])
| accounts_refused m :
    accounts (Rejected (ErrorObject m)) [].

(** A converter whose log is that of its calls: every call has emitted
    what accounts for the state of its promise, and nothing is logged for
    a call that was not made. *)
Definition consistent (this : t) : Prop :=
  forall k,
    match promises this !! k with
    | Some p => accounts p (eventsOf k (log this))
    | None => eventsOf k (log this) = []
    end.

(** The input is the successful completion of what a call suspended at
    [at_] is waiting for. *)
Definition completes (k : nat) (at_ : AwaitPoint) (input : Input) : Prop :=
  match at_, input with
  | AtRead, ReadSettled k' (ImageLoaded _) => k' = k
  | AtProcess _, ProcessSettled k' => k' = k
  | AtBlob _, BlobSettled k' (Some _) _ _ => k' = k
  | _, _ => False
  end.

(** Calls that are suspended at an [await]. *)
Definition isPending (p : Promise) : bool :=
  match p with Pending _ _ => true | _ => false end.

Definition inFlight (this : t) : nat :=
  length (filter (fun p => isPending p = true) (promises this)).

(** What a resumption of call [j] may do to the converter: nothing, or
    move the promise of [j], which was pending, and log events of [j]. *)
Definition resumed (j : nat) (this this' : t) : Prop :=
  this' = this
  \/ exists fr at_ p' evs,
      promises this !! j = Some (Pending fr at_)
      /\ promises this' = <[j := p']> (promises this)
      /\ log this' = log this ++ map (pair j) evs
      /\ controllers this' = controllers this
      /\ isDisposed this' = isDisposed this.

(** A converter whose registry is that of its calls: a key of
    [activeConversions] is the identifier generated with the controller it
    maps to, and that controller exists; a pending call holds a controller
    that exists, of which no other pending call holds the address, and is
    registered under its identifier as long as it is not aborted; a
    disposed converter has an empty registry. *)
Definition registered (generateId : nat -> string) (this : t) : Prop :=
  (forall id c, activeConversions this !! id = Some c ->
     (c < length (controllers this))%nat /\ id = generateId c)
  /\ (forall k fr at_, promises this !! k = Some (Pending fr at_) ->
       (abortController fr < length (controllers this))%nat
       /\ conversionId fr = generateId (abortController fr)
       /\ (aborted this (abortController fr) = false ->
           activeConversions this !! conversionId fr = Some (abortController fr)))
  /\ (forall j k frj atj frk atk,
       promises this !! j = Some (Pending frj atj) ->
       promises this !! k = Some (Pending frk atk) ->
       abortController frj = abortController frk -> j = k)
  /\ (isDisposed this = true -> activeConversions this = ∅).

(** The call of [convertMultiple] on a batch of one chunk: it waits for
    the chunk with no result yet, or it has returned either nothing or
    after all the promises of the chunk were fulfilled. *)
Definition oneChunk (batchPromises : list nat) (sys : System) : Prop :=
  match driver sys with
  | Suspended i results ps => i = 0 /\ results = [] /\ ps = batchPromises
  | Returned results =>
      results = []
      \/ Forall (fun k => exists r, promises (converter sys) !! k = Some (Fulfilled r))
           batchPromises
  | Thrown _ => True
  end.

(** The error that [createConversionError] builds for a cancelled call. *)
Definition cancelledError (fr : Frame) (now : Z) : ConversionError.t :=
  {| ConversionError.id := conversionId fr;
     ConversionError.fileName := FileInfo.name (file fr);
     ConversionError.errorType := PROCESSING_ERROR;
     ConversionError.message := "変換がキャンセルされました 🚫";
     ConversionError.details := "Error: Conversion was cancelled";
     ConversionError.timestamp := now |}.

End Trace.

(** Sample inputs on which the theorems are run. *)
Module Sample.
Import ImageConverter.

Definition generateId (n : nat) : string := "id" +:+ pretty n.

Definition png (name : string) (size : Z) : FileInfo.t :=
  FileInfo.mk (File.mk name size "image/png" 1700000000000)
    name size "image/png" 1700000000000.

Definition image : HTMLImageElement.t := HTMLImageElement.mk 640 480.

Definition webp (size : Z) : Blob.t := Blob.mk size "image/webp".

Definition threeFiles : list FileInfo.t :=
  [png "a.png" 1000; png "b.png" 1000; png "c.png" 1000].

Definition fourFiles : list FileInfo.t :=
  [png "a.png" 1000; png "b.png" 1000; png "c.png" 1000; png "d.png" 1000].

Definition twoAtATime : ConversionConfig.t :=
  {| ConversionConfig.quality := 0x1.999999999999ap-1%float;
     ConversionConfig.format := "webp";
     ConversionConfig.enableProgressReporting := true;
     ConversionConfig.maxFileSize := 10 * 1024 * 1024;
     ConversionConfig.maxConcurrentConversions := 2 |}.

(** One file goes through the four stages. *)
Definition oneFileRun : list (Z * Input) :=
  [(10, ReadSettled 0 (ImageLoaded image));
   (11, ProcessSettled 0);
   (25, BlobSettled 0 (Some (webp 400)) "blob:original-0" "blob:converted-0")].

(** Three files in one chunk; the second cannot be decoded and the batch
    continues at once, as the continuation of a rejected [Promise.all]
    does; the other two are converted afterwards. *)
Definition secondFileCorrupt : list (Z * Input) :=
  [(10, ReadSettled 0 (ImageLoaded image));
   (11, ReadSettled 1 (ReadRejected FailedToLoadImage));
   (11, BatchSettled);
   (12, ReadSettled 2 (ImageLoaded image));
   (13, ProcessSettled 0);
   (13, ProcessSettled 2);
   (25, BlobSettled 0 (Some (webp 400)) "blob:original-0" "blob:converted-0");
   (27, BlobSettled 2 (Some (webp 700)) "blob:original-2" "blob:converted-2")].

(** Four files, two at a time; the first cannot be decoded while the
    second is still being read; then the batch continues. *)
Definition firstFileCorrupt : list (Z * Input) :=
  [(10, ReadSettled 0 (ReadRejected FailedToLoadImage));
   (10, BatchSettled)].

(** The first of three files is cancelled while it is being read. *)
Definition cancelledWhileReading : list (Z * Input) :=
  [(5, CancelConversion "id0")].

(** A result with a given compression ratio, and an error. *)
Definition resultWithRatio (ratio : float) : ConversionResult.t :=
  {| ConversionResult.id := "id0";
     ConversionResult.originalFile := png "a.png" 1000;
     ConversionResult.convertedBlob := webp 500;
     ConversionResult.convertedSize := 500;
     ConversionResult.compressionRatio := ratio;
     ConversionResult.originalUrl := "blob:original-0";
     ConversionResult.convertedUrl := "blob:converted-0";
     ConversionResult.processingTime := 20;
     ConversionResult.status := COMPLETED |}.

Definition someError : ConversionError.t :=
  createConversionError "id2" "c.png" (ErrorObject "Failed to load image") 30.

End Sample.

(** ** The built-ins on the values of the ECMAScript specification *)

Module BuiltinsProofs.

Example Math_round_examples :
  Math_round 2.5 = 3%float
  /\ Math_round (-2.5) = (-2)%float
  /\ Math_round 0.5 = 1%float
  /\ Math_round (-0.5) = (-0)%float
  /\ Math_round 0x1.fffffffffffffp-2 = 0%float
  /\ Math_round (-150) = (-150)%float
  /\ Math_round infinity = infinity
  /\ Math_round 0x1.c7fffffffffffp+4 = 28%float.
Proof. repeat split. Qed.

Example includes_examples :
  includes "Conversion was cancelled" "cancelled" = true
  /\ includes "Failed to convert image to WebP" "WebP" = true
  /\ includes "Failed to load image" "large" = false
  /\ includes "" "" = true
  /\ includes "" "a" = false.
Proof. repeat split. Qed.

Example slice_examples :
  slice [1; 2; 3; 4; 5] 0 2 = [1; 2]
  /\ slice [1; 2; 3; 4; 5] 4 6 = [5]
  /\ slice [1; 2; 3; 4; 5] 6 8 = []
  /\ slice [1; 2; 3; 4; 5] (-2) 7 = [4; 5]
  /\ slice [1; 2; 3; 4; 5] (-1) (-2) = [].
Proof. repeat split. Qed.

(** The quotient and the product are rounded to binary64 before
    [Math.round]: for 1000 bytes converted to 715 the product is
    28.499999999999996 and the ratio is 28. *)
Example calculateCompressionRatio_examples :
  ImageConverter.calculateCompressionRatio 1000 400 = 60%float
  /\ ImageConverter.calculateCompressionRatio 2097152 524288 = 75%float
  /\ ImageConverter.calculateCompressionRatio 100 250 = (-150)%float
  /\ ImageConverter.calculateCompressionRatio 0 0 = 0%float
  /\ ImageConverter.calculateCompressionRatio 0 38 = 0%float
  /\ ((Z2F 1000 - Z2F 715) / Z2F 1000 * 100)%float = 0x1.c7fffffffffffp+4%float
  /\ ImageConverter.calculateCompressionRatio 1000 715 = 28%float.
Proof. repeat split. Qed.

(** How [createConversionError] classifies the errors that
    [convertToWebP] throws. *)
Example createConversionError_examples :
  map (fun message =>
         ConversionError.errorType
           (ImageConverter.createConversionError "id0" "a.png"
              (ImageConverter.ErrorObject message) 0))
      ["Failed to read file"; "Failed to load image"; "FileReader error";
       "Failed to convert image to WebP"; "Conversion was cancelled"]%string
  = [PROCESSING_ERROR; PROCESSING_ERROR; PROCESSING_ERROR;
     BROWSER_COMPATIBILITY; PROCESSING_ERROR].
Proof. reflexivity. Qed.

End BuiltinsProofs.

(** ** FileHandler *)

Module FileHandlerProofs.
Import FileHandler Policy.

Lemma acceptFiles_loop (files : list File.t) (acc : list FileInfo.t) :
  exists infos,
    fold_left acceptFiles_body files acc = acc ++ infos
    /\ Forall2 describes files infos.
Proof.
  revert acc. induction files as [|file files IH]; intros acc; simpl.
  - exists []. split; [by rewrite app_nil_r | constructor].
  - destruct (IH (acceptFiles_body acc file)) as (infos & Heq & Hall).
    eexists (_ :: infos). split.
    + rewrite Heq. unfold acceptFiles_body, push. by rewrite <- app_assoc.
    + constructor; [|done]. by repeat split.
Qed.

(** C10: on a handler that is not disposed, [acceptFiles] returns one
    descriptor per input file, in the order of the input, each with the
    file itself and its name, size, type and modification time; it does so
    for every list of files, whatever they are. *)
Theorem acceptFiles_describes_every_file (this : t) (files : list File.t) :
  isDisposed this = false ->
  exists infos,
    acceptFiles this files = Normal infos
    /\ length infos = length files
    /\ Forall2 describes files infos.
Proof.
  intros Hlive. unfold acceptFiles, ensureNotDisposed. rewrite Hlive. simpl.
  destruct (acceptFiles_loop files []) as (infos & Heq & Hall).
  exists infos. simpl in Heq. rewrite Heq.
  split; [done|]. split; [|done].
  symmetry. by eapply Forall2_length.
Qed.

Lemma acceptFiles_describes_every_file_witness :
  isDisposed (mk [] false) = false
  /\ exists infos,
      acceptFiles (mk [] false)
        [File.mk "a.png" 2048 "image/png" 17; File.mk "notes.txt" 0 "text/plain" 18]
      = Normal infos
      /\ length infos = 2%nat
      /\ Forall2 describes
           [File.mk "a.png" 2048 "image/png" 17; File.mk "notes.txt" 0 "text/plain" 18]
           infos.
Proof.
  split; [reflexivity|].
  apply (acceptFiles_describes_every_file (mk [] false)
           [File.mk "a.png" 2048 "image/png" 17; File.mk "notes.txt" 0 "text/plain" 18]).
  reflexivity.
Defined.

Section Validation.
Variable formatFileSize : Z -> string.

Local Abbreviation fileErrors f :=
  (ValidationResult.errors (validateSingleFile formatFileSize f)).
Local Abbreviation fileWarnings f :=
  (ValidationResult.warnings (validateSingleFile formatFileSize f)).

Lemma Array_includes_supported (ty : string) :
  Array_includes SUPPORTED_FORMATS ty
  = bool_decide (ty = "image/png" \/ ty = "image/jpeg" \/ ty = "image/jpg").
Proof.
  unfold Array_includes, SUPPORTED_FORMATS. simpl.
  destruct (String.eqb_spec ty "image/png") as [->|H1]; [done|].
  destruct (String.eqb_spec ty "image/jpeg") as [->|H2]; [done|].
  destruct (String.eqb_spec ty "image/jpg") as [->|H3]; [done|].
  simpl. symmetry. apply bool_decide_eq_false. tauto.
Qed.

Lemma fileErrors_length (f : FileInfo.t) :
  length (fileErrors f) = violations f.
Proof.
  unfold validateSingleFile, violations, wrongFormat, oversized, empty, push.
  cbn [ValidationResult.errors]. rewrite Array_includes_supported.
  change (MAX_FILE_SIZE_MB * 1024 * 1024) with (10 * 1024 * 1024).
  destruct (bool_decide _), (_ <? _), (_ =? _); reflexivity.
Qed.

Lemma violations_bounds (f : FileInfo.t) :
  (violating f = true -> 1 <= violations f <= 2)%nat
  /\ (violating f = false -> violations f = 0%nat).
Proof.
  unfold violating, violations, oversized, empty.
  destruct (wrongFormat f);
    destruct (Z.ltb_spec (10 * 1024 * 1024) (FileInfo.size f));
    destruct (Z.eqb_spec (FileInfo.size f) 0); simpl; split; intros; try lia;
    try discriminate.
Qed.

Lemma validateFiles_loop (files : list FileInfo.t) (acc : list string * list string) :
  fold_left (validateFiles_body formatFileSize) files acc
  = (fst acc ++ concat (map (fun f => fileErrors f) files),
     snd acc ++ concat (map (fun f => fileWarnings f) files)).
Proof.
  revert acc. induction files as [|f files IH]; intros [es ws].
  - simpl. by rewrite !app_nil_r.
  - cbn [fold_left map concat]. rewrite IH.
    unfold validateFiles_body, push_all. simpl. by rewrite <- !app_assoc.
Qed.

(** The verdict of [validateFiles], in closed form. *)
Lemma validateFiles_unfold (this : t) (files : list FileInfo.t) :
  isDisposed this = false ->
  exists v,
    validateFiles formatFileSize this files = Normal v
    /\ ValidationResult.isValid v
       = bool_decide (ValidationResult.errors v = [])
    /\ exists batch,
        length batch = batchEntries files
        /\ ValidationResult.errors v
           = batch ++ concat (map (fun f => fileErrors f) files).
Proof.
  intros Hlive. unfold validateFiles, ensureNotDisposed. rewrite Hlive.
  cbn [bind]. rewrite validateFiles_loop. cbn [fst snd].
  eexists. split; [reflexivity|]. cbn [ValidationResult.isValid ValidationResult.errors].
  split.
  - apply bool_decide_ext. split; [apply length_zero_iff_nil|intros ->; done].
  - eexists. split; [|reflexivity].
    unfold batchEntries, push, MAX_FILES_PER_BATCH.
    destruct files as [|f files]; [reflexivity|].
    rewrite bool_decide_false by done.
    change (Z.of_nat (length (f :: files)) =? 0) with false. cbn [app].
    destruct (Z.ltb_spec 20 (Z.of_nat (length (f :: files)))).
    + rewrite bool_decide_true by lia. reflexivity.
    + rewrite bool_decide_false by lia. reflexivity.
Qed.

Lemma withinPolicy_no_errors (f : FileInfo.t) :
  withinPolicy f -> fileErrors f = [].
Proof.
  intros [Hty Hsz]. apply length_zero_iff_nil. rewrite fileErrors_length.
  apply violations_bounds. unfold violating, wrongFormat, oversized, empty.
  rewrite bool_decide_true by done.
  destruct (Z.ltb_spec (10 * 1024 * 1024) (FileInfo.size f)); [lia|].
  destruct (Z.eqb_spec (FileInfo.size f) 0); [lia|]. reflexivity.
Qed.

Lemma concat_nil_Forall {A} (ls : list (list A)) :
  Forall (fun l => l = []) ls -> concat ls = [].
Proof. induction 1 as [|l ls -> _ IH]; simpl; [done|exact IH]. Qed.

(** C5: on a handler that is not disposed, the verdict of
    [validateFiles] is valid exactly when its error list is empty; and a
    batch of one to twenty files, each of type PNG, JPEG or JPG and of a
    size between 1 byte and 10 MiB, is valid with no error. *)
Theorem validateFiles_valid_iff_no_error (this : t) (files : list FileInfo.t) :
  isDisposed this = false ->
  exists v,
    validateFiles formatFileSize this files = Normal v
    /\ (ValidationResult.isValid v = true <-> ValidationResult.errors v = [])
    /\ (files <> [] -> (length files <= 20)%nat -> Forall withinPolicy files ->
        ValidationResult.isValid v = true /\ ValidationResult.errors v = []).
Proof.
  intros Hlive.
  destruct (validateFiles_unfold this files Hlive)
    as (v & Hv & Hvalid & batch & Hbatch & Herrors).
  exists v. split; [done|].
  assert (Hiff : ValidationResult.isValid v = true <-> ValidationResult.errors v = []).
  { rewrite Hvalid. apply bool_decide_eq_true. }
  split; [done|]. intros Hne Hlen Hall.
  assert (ValidationResult.errors v = []) as Hnil; [|by split; [apply Hiff|]].
  rewrite Herrors.
  assert (batch = []) as ->.
  { apply length_zero_iff_nil. rewrite Hbatch. unfold batchEntries.
    rewrite bool_decide_false by done. rewrite bool_decide_false by lia. done. }
  apply concat_nil_Forall, Forall_map.
  eapply Forall_impl; [exact Hall|]. intros f Hf. by apply withinPolicy_no_errors.
Qed.

Lemma fileErrors_named (f : FileInfo.t) :
  Forall (fun e => exists rest, e = FileInfo.name f +:+ ": " +:+ rest) (fileErrors f).
Proof.
  unfold validateSingleFile, push. cbn [ValidationResult.errors].
  destruct (negb _), (_ <? _), (_ =? _); cbn [app];
    repeat (constructor; [eexists; reflexivity|]); constructor.
Qed.

Lemma violating_errors (files : list FileInfo.t) :
  Exists (fun f => violating f = true) files ->
  concat (map (fun f => fileErrors f) files) <> [].
Proof.
  induction 1 as [f files Hf|f files _ IH]; cbn [map concat]; intros Hnil;
    apply app_eq_nil in Hnil as [Hl Hr]; [|by apply IH].
  apply (f_equal length) in Hl. rewrite fileErrors_length in Hl.
  apply violations_bounds in Hf. simpl in Hl. lia.
Qed.

Lemma length_concat_errors (files : list FileInfo.t) :
  length (concat (map (fun f => fileErrors f) files))
  = sum_list (map violations files).
Proof.
  induction files as [|f files IH]; [done|]. cbn [map concat sum_list].
  by rewrite length_app, fileErrors_length, IH.
Qed.

(** C6, as amended: on a handler that is not disposed, a batch with at
    least one oversized, empty or wrong-format file is invalid, and its
    error list is the entries about the batch as a whole followed, file
    by file in batch order, by the entries of every file: one entry for
    each rule the file breaks, which is one or two entries for a
    violating file and none for the others, each beginning with the name
    of the file.  Nothing stops at the first violation. *)
Theorem validateFiles_one_entry_per_broken_rule (this : t) (files : list FileInfo.t) :
  isDisposed this = false ->
  Exists (fun f => violating f = true) files ->
  exists v batch,
    validateFiles formatFileSize this files = Normal v
    /\ ValidationResult.isValid v = false
    /\ length batch = batchEntries files
    /\ ValidationResult.errors v
       = batch ++ concat (map (fun f => fileErrors f) files)
    /\ length (ValidationResult.errors v)
       = (batchEntries files + sum_list (map violations files))%nat
    /\ forall f,
        length (fileErrors f) = violations f
        /\ (violating f = true -> 1 <= violations f <= 2)%nat
        /\ (violating f = false -> violations f = 0%nat)
        /\ Forall (fun e => exists rest, e = FileInfo.name f +:+ ": " +:+ rest)
             (fileErrors f).
Proof.
  intros Hlive Hex.
  destruct (validateFiles_unfold this files Hlive)
    as (v & Hv & Hvalid & batch & Hbatch & Herrors).
  exists v, batch. split; [done|]. split.
  { rewrite Hvalid. apply bool_decide_eq_false. rewrite Herrors. intros Hnil.
    apply app_eq_nil in Hnil as [_ Hnil]. by apply (violating_errors files). }
  split; [done|]. split; [done|]. split.
  { by rewrite Herrors, length_app, Hbatch, length_concat_errors. }
  intros f. split; [apply fileErrors_length|].
  split; [apply violations_bounds|]. split; [apply violations_bounds|].
  apply fileErrors_named.
Qed.

End Validation.

Lemma validateFiles_valid_iff_no_error_witness :
  let files := [FileInfo.mk (File.mk "a.png" 2048 "image/png" 17) "a.png" 2048 "image/png" 17] in
  isDisposed (mk [] false) = false
  /\ files <> [] /\ (length files <= 20)%nat /\ Forall withinPolicy files
  /\ exists v,
      validateFiles (fun _ => "2 KB"%string) (mk [] false) files = Normal v
      /\ ValidationResult.isValid v = true /\ ValidationResult.errors v = [].
Proof.
  intros files.
  assert (Hne : files <> []) by discriminate.
  assert (Hlen : (length files <= 20)%nat) by (simpl; lia).
  assert (Hall : Forall withinPolicy files).
  { constructor; [|constructor]. split; [left; reflexivity|simpl; lia]. }
  split; [reflexivity|]. split; [exact Hne|]. split; [exact Hlen|]. split; [exact Hall|].
  destruct (validateFiles_valid_iff_no_error (fun _ => "2 KB"%string) (mk [] false) files
              eq_refl) as (v & Hv & _ & Hgood).
  exists v. split; [exact Hv|]. exact (Hgood Hne Hlen Hall).
Defined.

(** C6 as stated fails: a batch of one file that is both of a wrong
    format and empty has one violating file and two entries, so the error
    list does not always have as many entries as there are violating
    files. *)
Lemma validateFiles_two_entries_for_one_file :
  let files := [FileInfo.mk (File.mk "notes.txt" 0 "text/plain" 17)
                  "notes.txt" 0 "text/plain" 17] in
  length (filter (fun f => violating f = true) files) = 1%nat
  /\ validateFiles (fun _ => "0 Bytes"%string) (mk [] false) files
     = Normal
         {| ValidationResult.isValid := false;
            ValidationResult.errors :=
              ["notes.txt: サポートされていないファイル形式です（text/plain）🚫";
               "notes.txt: ファイルが空です 📄"]%string;
            ValidationResult.warnings := [] |}
  /\ ~ (forall formatFileSize this files,
          isDisposed this = false ->
          Exists (fun f => violating f = true) files ->
          exists v,
            validateFiles formatFileSize this files = Normal v
            /\ ValidationResult.isValid v = false
            /\ length (ValidationResult.errors v)
               = length (filter (fun f => violating f = true) files)).
Proof.
  intros files. split; [reflexivity|]. split; [reflexivity|]. intros Hclaim.
  destruct (Hclaim (fun _ => "0 Bytes"%string) (mk [] false) files eq_refl)
    as (v & Hv & _ & Hlen).
  - apply Exists_cons_hd. reflexivity.
  - inversion Hv; subst v. discriminate Hlen.
Qed.

Lemma validateFiles_one_entry_per_broken_rule_witness :
  let files := [FileInfo.mk (File.mk "a.png" 2048 "image/png" 17) "a.png" 2048 "image/png" 17;
                FileInfo.mk (File.mk "notes.txt" 0 "text/plain" 17)
                  "notes.txt" 0 "text/plain" 17] in
  isDisposed (mk [] false) = false
  /\ Exists (fun f => violating f = true) files
  /\ exists v,
      validateFiles (fun _ => "0 Bytes"%string) (mk [] false) files = Normal v
      /\ ValidationResult.isValid v = false
      /\ length (ValidationResult.errors v) = 2%nat.
Proof.
  intros files.
  assert (Hex : Exists (fun f => violating f = true) files).
  { apply Exists_cons_tl, Exists_cons_hd. reflexivity. }
  split; [reflexivity|]. split; [exact Hex|].
  destruct (validateFiles_one_entry_per_broken_rule (fun _ => "0 Bytes"%string)
              (mk [] false) files eq_refl Hex)
    as (v & batch & Hv & Hinvalid & _ & _ & Hlen & _).
  exists v. split; [exact Hv|]. split; [exact Hinvalid|]. exact Hlen.
Defined.

End FileHandlerProofs.

(** ** ImageConverter: the log of a call follows the state of its promise *)

Module ImageConverterProofs.
Import ImageConverter Trace.

Lemma eventsOf_app (k : nat) (l1 l2 : list (nat * Event)) :
  eventsOf k (l1 ++ l2) = eventsOf k l1 ++ eventsOf k l2.
Proof.
  induction l1 as [|[j ev] l1 IH]; [done|]. simpl.
  destruct (Nat.eqb j k); simpl; by rewrite IH.
Qed.

Lemma eventsOf_tagged (k j : nat) (evs : list Event) :
  eventsOf k (map (pair j) evs) = if Nat.eqb j k then evs else [].
Proof.
  induction evs as [|ev evs IH]; simpl; [by destruct (Nat.eqb j k)|].
  rewrite IH. by destruct (Nat.eqb j k).
Qed.

(** The invariant only reads the promises and the log. *)
Lemma consistent_ext (this this' : t) :
  promises this' = promises this -> log this' = log this ->
  consistent this -> consistent this'.
Proof. unfold consistent. intros -> ->. done. Qed.

(** Call [k] emits [evs] and its promise becomes [p']. *)
Lemma consistent_update (this this' : t) (k : nat) (p p' : Promise) (evs : list Event) :
  promises this !! k = Some p ->
  promises this' = <[k := p']> (promises this) ->
  log this' = log this ++ map (pair k) evs ->
  accounts p' (eventsOf k (log this) ++ evs) ->
  consistent this -> consistent this'.
Proof.
  intros Hk Hps Hlog Hacc Hinv j. rewrite Hps, Hlog, eventsOf_app, eventsOf_tagged.
  destruct (Nat.eqb_spec k j) as [<-|Hne].
  - rewrite list_lookup_insert_eq; [done|]. by eapply lookup_lt_Some.
  - rewrite list_lookup_insert_ne, app_nil_r by done. apply Hinv.
Qed.

(** A new call is made: its promise is pushed and it emits [evs]. *)
Lemma consistent_push (this this' : t) (p : Promise) (evs : list Event) :
  promises this' = promises this ++ [p] ->
  log this' = log this ++ map (pair (length (promises this))) evs ->
  accounts p evs ->
  consistent this -> consistent this'.
Proof.
  intros Hps Hlog Hacc Hinv j. rewrite Hps, Hlog, eventsOf_app, eventsOf_tagged.
  specialize (Hinv j).
  destruct (Nat.eqb_spec (length (promises this)) j) as [<-|Hne].
  - rewrite lookup_app_r, Nat.sub_diag by done. simpl.
    rewrite lookup_ge_None_2 in Hinv by done. by rewrite Hinv.
  - rewrite app_nil_r. destruct (decide (j < length (promises this))%nat) as [Hlt|Hge].
    + by rewrite lookup_app_l.
    + rewrite lookup_ge_None_2 in Hinv by lia.
      rewrite lookup_ge_None_2; [done|]. rewrite length_app. simpl. lia.
Qed.

Lemma consistent_new : consistent new.
Proof. intros k. by destruct k. Qed.

Lemma consistent_catchBlock (this : t) (k n : nat) (fr : Frame) (at_ : AwaitPoint)
    (error : JsValue) (now : Z) :
  promises this !! k = Some (Pending fr at_) ->
  eventsOf k (log this) = reports fr n -> (1 <= n <= 3)%nat ->
  consistent this -> consistent (catchBlock k fr error now this).
Proof.
  intros Hk Hev Hn. eapply consistent_update with (evs := [_]); [exact Hk|done|done|].
  rewrite Hev. by apply accounts_rejected.
Qed.

Lemma pending_events (this : t) (k : nat) (fr : Frame) (at_ : AwaitPoint) :
  consistent this -> promises this !! k = Some (Pending fr at_) ->
  eventsOf k (log this)
  = reports fr match at_ with AtRead => 1 | AtProcess _ => 2 | AtBlob _ => 3 end.
Proof. intros Hinv Hk. specialize (Hinv k). rewrite Hk in Hinv. by inversion Hinv. Qed.

Lemma consistent_afterRead (this : t) (k : nat) (outcome : ReadOutcome) (now : Z) :
  consistent this -> consistent (afterRead k outcome now this).
Proof.
  intros Hinv. unfold afterRead.
  destruct (promises this !! k) as [[fr [| |]| |]|] eqn:Hk; try done.
  pose proof (pending_events _ _ _ _ Hinv Hk) as Hev.
  destruct outcome as [imageData|f].
  - destruct (checkAborted this (abortController fr)).
    + eapply consistent_update with (evs := [_]); [exact Hk|done|done| |done].
      rewrite Hev. constructor.
    + eapply consistent_catchBlock; eauto.
  - eapply consistent_catchBlock; eauto.
Qed.

Lemma consistent_afterProcess (this : t) (k : nat) (now : Z) :
  consistent this -> consistent (afterProcess k now this).
Proof.
  intros Hinv. unfold afterProcess.
  destruct (promises this !! k) as [[fr [|imageData|]| |]|] eqn:Hk; try done.
  pose proof (pending_events _ _ _ _ Hinv Hk) as Hev.
  destruct (checkAborted this (abortController fr)).
  - eapply consistent_update with (evs := [_]); [exact Hk|done|done| |done].
    rewrite Hev. constructor.
  - eapply consistent_catchBlock; eauto.
Qed.

Lemma consistent_afterBlob (this : t) (k : nat) (blob : option Blob.t)
    (originalUrl convertedUrl : string) (now : Z) :
  consistent this -> consistent (afterBlob k blob originalUrl convertedUrl now this).
Proof.
  intros Hinv. unfold afterBlob.
  destruct (promises this !! k) as [[fr [| |processedImage]| |]|] eqn:Hk; try done.
  pose proof (pending_events _ _ _ _ Hinv Hk) as Hev.
  destruct blob as [webpBlob|]; [|eapply consistent_catchBlock; eauto].
  destruct (checkAborted this (abortController fr)); [|eapply consistent_catchBlock; eauto].
  eapply consistent_update with (evs := [_; _]);
    [exact Hk|done|simpl; by rewrite <- app_assoc| |done].
  rewrite Hev. apply (accounts_fulfilled fr). by repeat split.
Qed.

Lemma promises_abort_all (this : t) (m : gmap string nat) :
  let this' := map_fold (fun _ controller this => abort controller this) this m in
  promises this' = promises this /\ log this' = log this
  /\ isDisposed this' = isDisposed this.
Proof.
  apply (map_fold_weak_ind (fun r _ =>
    promises r = promises this /\ log r = log this /\ isDisposed r = isDisposed this));
    [done|]. intros i x m' r _ IH. exact IH.
Qed.

Lemma consistent_cancelConversion (this : t) (id : string) :
  consistent this -> consistent (orUnchanged this (cancelConversion id this)).
Proof.
  intros Hinv. unfold cancelConversion.
  destruct (ensureNotDisposed this); [|done]. simpl.
  destruct (activeConversions this !! id); [|done]. by eapply consistent_ext.
Qed.

Lemma consistent_cancelAllConversions (this : t) :
  consistent this -> consistent (orUnchanged this (cancelAllConversions this)).
Proof.
  intros Hinv. unfold cancelAllConversions.
  destruct (ensureNotDisposed this); [|done]. simpl.
  destruct (promises_abort_all this (activeConversions this)) as (Hp & Hl & _).
  by eapply consistent_ext.
Qed.

Lemma consistent_dispose (this : t) : consistent this -> consistent (dispose this).
Proof.
  intros Hinv. unfold dispose. destruct (isDisposed this); [done|].
  pose proof (consistent_cancelAllConversions this Hinv) as H.
  destruct (cancelAllConversions this); [|done]. by eapply consistent_ext.
Qed.

Section WithIds.
Variable generateId : nat -> string.

Lemma consistent_convertToWebP (file : FileInfo.t) (config : ConversionConfig.t)
    (now : Z) (this : t) :
  consistent this -> consistent (convertToWebP generateId file config now this).
Proof.
  intros Hinv. unfold convertToWebP. destruct (ensureNotDisposed this).
  - eapply consistent_push with (evs := [_]); [done|done| |done]. constructor.
  - eapply consistent_push with (evs := []); [done|simpl; by rewrite app_nil_r| |done].
    constructor.
Qed.

Section WithBatch.
Variable files : list FileInfo.t.
Variable config : ConversionConfig.t.

Lemma consistent_calls (batch : list FileInfo.t) (now : Z) (this : t) :
  consistent this ->
  consistent (fold_left (fun this file => convertToWebP generateId file config now this)
                batch this).
Proof.
  revert this. induction batch as [|file batch IH]; intros this Hinv; [done|].
  simpl. by apply IH, consistent_convertToWebP.
Qed.

Lemma consistent_loopTest (i : Z) (results : list ConversionResult.t) (now : Z)
    (this : t) :
  consistent this ->
  consistent (converter (loopTest generateId files config i results now this)).
Proof.
  intros Hinv. unfold loopTest. destruct (_ <? _); [|done]. by apply consistent_calls.
Qed.

Lemma consistent_step (sys : System) (input : Z * Input) :
  consistent (converter sys) ->
  consistent (converter (step generateId files config sys input)).
Proof.
  intros Hinv. destruct input as [now []]; unfold step; simpl.
  - by apply consistent_afterRead.
  - by apply consistent_afterProcess.
  - by apply consistent_afterBlob.
  - unfold afterBatch. destruct (driver sys); [|done|done].
    destruct (Promise_all _ _); [done| |]; by apply consistent_loopTest.
  - by apply consistent_cancelConversion.
  - by apply consistent_cancelAllConversions.
  - by apply consistent_dispose.
  - by apply consistent_convertToWebP.
Qed.

Lemma consistent_steps (inputs : list (Z * Input)) (sys : System) :
  consistent (converter sys) ->
  consistent (converter (fold_left (step generateId files config) inputs sys)).
Proof.
  revert sys. induction inputs as [|input inputs IH]; intros sys Hinv; [done|].
  simpl. by apply IH, consistent_step.
Qed.

(** A run of [convertMultiple] on a consistent converter leaves a
    consistent converter, on which the next batch can run. *)
Lemma consistent_run (now : Z) (this : t) (inputs : list (Z * Input)) :
  consistent this ->
  consistent (converter (run generateId files config now this inputs)).
Proof.
  intros Hinv. apply consistent_steps. unfold convertMultiple.
  destruct (ensureNotDisposed this); [|done]. by apply consistent_loopTest.
Qed.

End WithBatch.
End WithIds.

End ImageConverterProofs.

(** ** ImageConverter: what one conversion emits and returns *)

Module ConversionProofs.
Import ImageConverter Trace ImageConverterProofs.

Lemma fulfilled_events (this : t) (k : nat) (r : ConversionResult.t) :
  consistent this -> promises this !! k = Some (Fulfilled r) ->
  exists fr, resultOf fr r /\ eventsOf k (log this) = reports fr 4 ++ [CompleteEvent r].
Proof.
  intros Hinv Hk. specialize (Hinv k). rewrite Hk in Hinv. inversion Hinv; subst.
  by eexists.
Qed.

Section WithBatch.
Variable generateId : nat -> string.
Variable files : list FileInfo.t.
Variable config : ConversionConfig.t.

(** C3: in every run of a batch on a consistent converter, the result
    of every conversion that succeeds has a compression ratio of 0 when
    the original file has size 0, and otherwise of
    [Math.round(((originalSize - convertedSize) / originalSize) * 100)],
    computed on binary64 numbers from the size of the original file and
    the converted size of the result. *)
Theorem compressionRatio_of_every_result (now : Z) (this : t)
    (inputs : list (Z * Input)) (k : nat) (r : ConversionResult.t) :
  consistent this ->
  promises (converter (run generateId files config now this inputs)) !! k
  = Some (Fulfilled r) ->
  let originalSize := FileInfo.size (ConversionResult.originalFile r) in
  let convertedSize := ConversionResult.convertedSize r in
  (originalSize = 0 -> ConversionResult.compressionRatio r = 0%float)
  /\ (originalSize <> 0 ->
      ConversionResult.compressionRatio r
      = Math_round (((Z2F originalSize - Z2F convertedSize) / Z2F originalSize)
                    * 100)%float).
Proof.
  intros Hinv Hk.
  destruct (fulfilled_events _ k r (consistent_run generateId files config now this inputs Hinv) Hk)
    as (fr & (_ & Hfile & Hsize & Hratio & _) & _).
  simpl. rewrite Hratio, Hsize, Hfile. unfold calculateCompressionRatio.
  split.
  - intros ->. reflexivity.
  - intros Hne. destruct (Z.eqb_spec (FileInfo.size (file fr)) 0); [done|reflexivity].
Qed.

(** C7: in every run of a batch on a consistent converter, the
    progress events of a conversion that succeeds are exactly four, all
    with the identifier and the file name of its result: Reading at 0,
    then Processing at 25, then Converting at 50, then Finalizing at
    100. *)
Theorem fulfilled_conversion_reports_four_stages (now : Z) (this : t)
    (inputs : list (Z * Input)) (k : nat) (r : ConversionResult.t) :
  consistent this ->
  promises (converter (run generateId files config now this inputs)) !! k
  = Some (Fulfilled r) ->
  let id := ConversionResult.id r in
  let fileName := FileInfo.name (ConversionResult.originalFile r) in
  map summary
    (progressEventsOf k (log (converter (run generateId files config now this inputs))))
  = [(id, fileName, READING, 0);
     (id, fileName, PROCESSING, 25);
     (id, fileName, CONVERTING, 50);
     (id, fileName, FINALIZING, 100)].
Proof.
  intros Hinv Hk.
  destruct (fulfilled_events _ k r (consistent_run generateId files config now this inputs Hinv) Hk)
    as (fr & (Hid & Hfile & _) & Hev).
  simpl. unfold progressEventsOf. rewrite Hev, Hid, Hfile. reflexivity.
Qed.

End WithBatch.

Lemma compressionRatio_of_every_result_witness :
  let sys := run Sample.generateId [Sample.png "a.png" 1000] DEFAULT_CONVERSION_CONFIG
               0 new Sample.oneFileRun in
  exists r,
    promises (converter sys) !! 0%nat = Some (Fulfilled r)
    /\ FileInfo.size (ConversionResult.originalFile r) = 1000
    /\ ConversionResult.convertedSize r = 400
    /\ ConversionResult.compressionRatio r = 60%float
    /\ ConversionResult.compressionRatio r
       = Math_round (((Z2F 1000 - Z2F 400) / Z2F 1000) * 100)%float.
Proof.
  intros sys. eexists. split; [reflexivity|].
  split; [reflexivity|]. split; [reflexivity|]. split; [reflexivity|].
  refine (proj2 (compressionRatio_of_every_result Sample.generateId
                   [Sample.png "a.png" 1000] DEFAULT_CONVERSION_CONFIG
                   0 new Sample.oneFileRun 0%nat _ consistent_new eq_refl) _).
  discriminate.
Defined.

Lemma fulfilled_conversion_reports_four_stages_witness :
  let sys := run Sample.generateId [Sample.png "a.png" 1000] DEFAULT_CONVERSION_CONFIG
               0 new Sample.oneFileRun in
  consistent new
  /\ (exists r, promises (converter sys) !! 0%nat = Some (Fulfilled r))
  /\ map summary (progressEventsOf 0 (log (converter sys)))
     = [("id0", "a.png", READING, 0); ("id0", "a.png", PROCESSING, 25);
        ("id0", "a.png", CONVERTING, 50); ("id0", "a.png", FINALIZING, 100)]%string.
Proof.
  intros sys. split; [exact consistent_new|]. split; [eexists; reflexivity|].
  exact (fulfilled_conversion_reports_four_stages Sample.generateId
           [Sample.png "a.png" 1000] DEFAULT_CONVERSION_CONFIG
           0 new Sample.oneFileRun 0%nat _ consistent_new eq_refl).
Defined.

End ConversionProofs.

(** ** ImageConverter: cancellation *)

Module CancellationProofs.
Import ImageConverter Trace ImageConverterProofs.

Lemma resumed_catchBlock (this : t) (k : nat) (fr : Frame) (at_ : AwaitPoint)
    (error : JsValue) (now : Z) :
  promises this !! k = Some (Pending fr at_) ->
  resumed k this (catchBlock k fr error now this).
Proof. intros Hk. right. eexists fr, at_, _, [_]. by repeat split. Qed.

Lemma resumed_afterRead (this : t) (k : nat) (outcome : ReadOutcome) (now : Z) :
  resumed k this (afterRead k outcome now this).
Proof.
  unfold afterRead.
  destruct (promises this !! k) as [[fr [| |]| |]|] eqn:Hk; try by left.
  destruct outcome; [|by eapply resumed_catchBlock].
  destruct (checkAborted _ _); [|by eapply resumed_catchBlock].
  right. eexists fr, AtRead, _, [_]. by repeat split.
Qed.

Lemma resumed_afterProcess (this : t) (k : nat) (now : Z) :
  resumed k this (afterProcess k now this).
Proof.
  unfold afterProcess.
  destruct (promises this !! k) as [[fr [|imageData|]| |]|] eqn:Hk; try by left.
  destruct (checkAborted _ _); [|by eapply resumed_catchBlock].
  right. eexists fr, (AtProcess imageData), _, [_]. by repeat split.
Qed.

Lemma resumed_afterBlob (this : t) (k : nat) (blob : option Blob.t)
    (originalUrl convertedUrl : string) (now : Z) :
  resumed k this (afterBlob k blob originalUrl convertedUrl now this).
Proof.
  unfold afterBlob.
  destruct (promises this !! k) as [[fr [| |processedImage]| |]|] eqn:Hk; try by left.
  destruct blob; [|by eapply resumed_catchBlock].
  destruct (checkAborted _ _); [|by eapply resumed_catchBlock].
  right. eexists fr, (AtBlob processedImage), _, [_; _].
  repeat split; try done. simpl. by rewrite <- app_assoc.
Qed.

(** A resumption of call [j] leaves a settled promise and its events. *)
Lemma resumed_settled (j k : nat) (this this' : t) (p : Promise) :
  resumed j this this' ->
  promises this !! k = Some p -> isPending p = false ->
  promises this' !! k = Some p /\ eventsOf k (log this') = eventsOf k (log this).
Proof.
  intros [->|(fr & at_ & p' & evs & Hj & Hps & Hlog & _)] Hk Hp; [done|].
  assert (j <> k) as Hne by (intros ->; rewrite Hk in Hj; by inversion Hj; subst).
  rewrite Hps, Hlog, eventsOf_app, eventsOf_tagged, list_lookup_insert_ne by done.
  destruct (Nat.eqb_spec j k); [done|]. by rewrite app_nil_r.
Qed.

Lemma eventsOf_above (k n : nat) (evs : list (nat * Event)) :
  (k < n)%nat -> Forall (fun e => (n <= fst e)%nat) evs -> eventsOf k evs = [].
Proof.
  intros Hk. induction 1 as [|[j ev] evs Hj _ IH]; [done|]. simpl in *.
  destruct (Nat.eqb_spec j k); [lia|done].
Qed.

Section WithIds.
Variable generateId : nat -> string.

(** The calls of one batch push promises and log events of these new
    calls only. *)
Lemma calls_extend (config : ConversionConfig.t) (batch : list FileInfo.t) (now : Z)
    (this : t) :
  let this' :=
    fold_left (fun this file => convertToWebP generateId file config now this)
      batch this in
  exists ps evs,
    promises this' = promises this ++ ps
    /\ length ps = length batch
    /\ log this' = log this ++ evs
    /\ Forall (fun e => (length (promises this) <= fst e)%nat) evs.
Proof.
  revert this. induction batch as [|file batch IH]; intros this; simpl.
  - exists [], []. by rewrite !app_nil_r.
  - destruct (IH (convertToWebP generateId file config now this))
      as (ps & evs & Hps & Hlen & Hlog & Hevs).
    assert (exists p evs0,
               promises (convertToWebP generateId file config now this)
               = promises this ++ [p]
               /\ log (convertToWebP generateId file config now this)
                  = log this ++ evs0
               /\ Forall (fun e => (length (promises this) <= fst e)%nat) evs0)
      as (p & evs0 & Hp0 & Hl0 & He0).
    { unfold convertToWebP. destruct (ensureNotDisposed this).
      - eexists _, [_]. repeat split; try done. by repeat constructor.
      - eexists _, []. repeat split; try done. simpl. by rewrite app_nil_r. }
    exists (p :: ps), (evs0 ++ evs). rewrite Hps, Hlog, Hp0, Hl0, <- !app_assoc.
    repeat split; try done; [simpl; by rewrite Hlen|].
    apply Forall_app. split; [done|].
    eapply Forall_impl; [exact Hevs|]. intros e. rewrite Hp0, length_app. simpl. lia.
Qed.

Section WithBatch.
Variable files : list FileInfo.t.
Variable config : ConversionConfig.t.

Lemma loopTest_settled (i : Z) (results : list ConversionResult.t) (now : Z)
    (this : t) (k : nat) (p : Promise) :
  promises this !! k = Some p ->
  let this' := converter (loopTest generateId files config i results now this) in
  promises this' !! k = Some p /\ eventsOf k (log this') = eventsOf k (log this).
Proof.
  intros Hk. unfold loopTest. destruct (_ <? _); [|done]. simpl.
  destruct (calls_extend config
              (slice files i (i + ConversionConfig.maxConcurrentConversions config))
              now this) as (ps & evs & Hps & _ & Hlog & Hevs).
  rewrite Hps, Hlog, eventsOf_app. split.
  - by apply lookup_app_l_Some.
  - rewrite (eventsOf_above k _ evs (lookup_lt_Some _ _ _ Hk) Hevs).
    by rewrite app_nil_r.
Qed.

(** No input changes a settled promise or adds to its events. *)
Lemma step_settled (sys : System) (input : Z * Input) (k : nat) (p : Promise) :
  promises (converter sys) !! k = Some p -> isPending p = false ->
  let sys' := step generateId files config sys input in
  promises (converter sys') !! k = Some p
  /\ eventsOf k (log (converter sys')) = eventsOf k (log (converter sys)).
Proof.
  intros Hk Hp. destruct input as [now [| | | | | | |file0 config0]]; unfold step; simpl.
  - eapply resumed_settled; eauto using resumed_afterRead.
  - eapply resumed_settled; eauto using resumed_afterProcess.
  - eapply resumed_settled; eauto using resumed_afterBlob.
  - unfold afterBatch. destruct (driver sys); [|done|done].
    destruct (Promise_all _ _); [done| |]; by apply loopTest_settled.
  - unfold cancelConversion. destruct (ensureNotDisposed _); [|done]. simpl.
    by destruct (activeConversions _ !! _).
  - unfold cancelAllConversions. destruct (ensureNotDisposed _); [|done]. simpl.
    destruct (promises_abort_all (converter sys) (activeConversions (converter sys)))
      as (-> & -> & _). done.
  - unfold dispose. destruct (isDisposed _); [done|].
    unfold cancelAllConversions, ensureNotDisposed.
    destruct (isDisposed _); [done|]. simpl.
    destruct (promises_abort_all (converter sys) (activeConversions (converter sys)))
      as (-> & -> & _). done.
  - destruct (calls_extend config0 [file0] now (converter sys))
      as (ps & evs & Hps & _ & Hlog & Hevs).
    simpl in Hps, Hlog. rewrite Hps, Hlog, eventsOf_app. split.
    + by apply lookup_app_l_Some.
    + rewrite (eventsOf_above k _ evs (lookup_lt_Some _ _ _ Hk) Hevs).
      by rewrite app_nil_r.
Qed.

Lemma steps_settled (inputs : list (Z * Input)) (sys : System) (k : nat) (p : Promise) :
  promises (converter sys) !! k = Some p -> isPending p = false ->
  let sys' := fold_left (step generateId files config) inputs sys in
  promises (converter sys') !! k = Some p
  /\ eventsOf k (log (converter sys')) = eventsOf k (log (converter sys)).
Proof.
  revert sys. induction inputs as [|input inputs IH]; intros sys Hk Hp; [done|].
  simpl. destruct (step_settled sys input k p Hk Hp) as [Hk' Hev'].
  destruct (IH _ Hk' Hp) as [Hk'' Hev'']. split; [done|]. by rewrite <- Hev'.
Qed.

Lemma reports_progress_only (fr : Frame) (n : nat) :
  omap completeOnly (reports fr n) = [] /\ omap errorOnly (reports fr n) = [].
Proof.
  unfold reports. generalize (take n [READING; PROCESSING; CONVERTING; FINALIZING]).
  intros stages. induction stages as [|stage stages [IH1 IH2]]; [done|]. by simpl.
Qed.

(** The [catch] block on the error of [checkAborted]. *)
Lemma catchBlock_cancelled (this : t) (k : nat) (fr : Frame) (p : Promise) (now : Z) :
  promises this !! k = Some p ->
  let e := cancelledError fr now in
  let this' := catchBlock k fr (ErrorObject "Conversion was cancelled") now this in
  promises this' !! k = Some (Rejected (ConversionErrorObject e))
  /\ log this' = log this ++ [(k, ErrorEvent e)]
  /\ (forall j, j <> k -> promises this' !! j = promises this !! j)
  /\ controllers this' = controllers this.
Proof.
  intros Hk. split; [|split; [done|split; [|done]]].
  - apply list_lookup_insert_eq. by eapply lookup_lt_Some.
  - intros j Hj. by apply list_lookup_insert_ne.
Qed.

Lemma aborted_abort_other (this : t) (c c' : nat) :
  c <> c' -> aborted (abort c this) c' = aborted this c'.
Proof. intros Hne. unfold aborted, abort. simpl. by rewrite list_lookup_insert_ne. Qed.

(** C8: take a conversion that is suspended at one of its [await]s
    and whose controller is aborted.  When the awaited operation
    completes, the conversion meets [checkAborted] before its next
    stage and is rejected with a processing error carrying the
    cancellation message; this step logs that error event and nothing
    else, and changes no other promise and no controller.  From then
    on, whatever happens, the promise stays rejected and the
    conversion emits no further progress event and no completion
    event.  Cancelling an identifier changes no promise, logs
    nothing, and aborts no controller but the one registered under
    that identifier. *)
Theorem cancelled_conversion_is_rejected (sys : System) (k : nat) (fr : Frame)
    (at_ : AwaitPoint) (now : Z) (input : Input) :
  consistent (converter sys) ->
  promises (converter sys) !! k = Some (Pending fr at_) ->
  aborted (converter sys) (abortController fr) = true ->
  completes k at_ input ->
  let e := cancelledError fr now in
  let sys' := step generateId files config sys (now, input) in
  (promises (converter sys') !! k = Some (Rejected (ConversionErrorObject e))
   /\ ConversionError.errorType e = PROCESSING_ERROR
   /\ log (converter sys') = log (converter sys) ++ [(k, ErrorEvent e)]
   /\ (forall j, j <> k ->
       promises (converter sys') !! j = promises (converter sys) !! j)
   /\ controllers (converter sys') = controllers (converter sys)
   /\ driver sys' = driver sys)
  /\ (forall inputs,
       let sys'' := fold_left (step generateId files config) inputs sys' in
       promises (converter sys'') !! k = Some (Rejected (ConversionErrorObject e))
       /\ progressEventsOf k (log (converter sys''))
          = progressEventsOf k (log (converter sys))
       /\ omap completeOnly (eventsOf k (log (converter sys''))) = []
       /\ omap errorOnly (eventsOf k (log (converter sys''))) = [e])
  /\ (forall id now',
       let sys1 := step generateId files config sys (now', CancelConversion id) in
       promises (converter sys1) = promises (converter sys)
       /\ log (converter sys1) = log (converter sys)
       /\ driver sys1 = driver sys
       /\ forall c, activeConversions (converter sys) !! id <> Some c ->
            aborted (converter sys1) c = aborted (converter sys) c).
Proof.
  intros Hinv Hk Habort Hinput e sys'.
  assert (Hstep : converter sys'
                  = catchBlock k fr (ErrorObject "Conversion was cancelled") now
                      (converter sys)
                  /\ driver sys' = driver sys).
  { subst sys'. unfold step. cbn [fst snd].
    destruct at_, input as [k' [?|?]|k'|k' [?|]| | | | |]; simpl in Hinput; try done;
      subst k'; cbn [converter driver];
      unfold afterRead, afterProcess, afterBlob; rewrite Hk;
      unfold checkAborted; rewrite Habort; done. }
  destruct Hstep as [Hconv Hdrv].
  destruct (catchBlock_cancelled (converter sys) k fr _ now Hk)
    as (Hk' & Hlog & Hothers & Hctrl).
  rewrite <- Hconv in Hk', Hlog, Hothers, Hctrl. fold e in Hk', Hlog.
  split; [by repeat split|]. split.
  - intros inputs sys''.
    destruct (steps_settled inputs sys' k _ Hk' eq_refl) as [Hk'' Hev].
    fold sys'' in Hk'', Hev. split; [done|].
    unfold progressEventsOf. rewrite Hev, Hlog, eventsOf_app. simpl.
    rewrite Nat.eqb_refl, (pending_events _ _ _ _ Hinv Hk), !omap_app.
    destruct (reports_progress_only fr
                match at_ with AtRead => 1 | AtProcess _ => 2 | AtBlob _ => 3 end%nat)
      as [-> ->].
    simpl. by rewrite app_nil_r.
  - intros id now' sys1. subst sys1. unfold step. cbn [fst snd converter driver].
    unfold cancelConversion. destruct (ensureNotDisposed _); [|done]. simpl.
    destruct (activeConversions (converter sys) !! id) as [c0|] eqn:Hid; [|done].
    simpl. repeat split; try done. intros c Hc.
    apply (aborted_abort_other (converter sys)). congruence.
Qed.

End WithBatch.
End WithIds.

(** C9: on a converter that is not disposed, [cancelConversion] of an
    identifier that is not a key of [activeConversions] returns normally
    and leaves the converter as it was; as an input of a running batch it
    changes nothing and logs nothing. *)
Theorem cancelConversion_unknown_id_is_noop (this : t) (id : string) :
  isDisposed this = false ->
  activeConversions this !! id = None ->
  cancelConversion id this = Normal this
  /\ forall generateId files config driver now,
      step generateId files config (mkSystem this driver) (now, CancelConversion id)
      = mkSystem this driver.
Proof.
  intros Hlive Hid.
  assert (cancelConversion id this = Normal this) as Hcancel.
  { unfold cancelConversion, ensureNotDisposed. by rewrite Hlive, Hid. }
  split; [done|]. intros. unfold step. simpl. by rewrite Hcancel.
Qed.

Lemma cancelConversion_unknown_id_is_noop_witness :
  let sys := run Sample.generateId Sample.threeFiles DEFAULT_CONVERSION_CONFIG
               0 new Sample.cancelledWhileReading in
  isDisposed (converter sys) = false
  /\ activeConversions (converter sys) !! "id0"%string = None
  /\ activeConversions (converter sys) !! "id1"%string = Some 1%nat
  /\ cancelConversion "id0" (converter sys) = Normal (converter sys).
Proof.
  intros sys. split; [reflexivity|]. split; [reflexivity|]. split; [reflexivity|].
  exact (proj1 (cancelConversion_unknown_id_is_noop (converter sys) "id0"
                  eq_refl eq_refl)).
Defined.

Lemma cancelled_conversion_is_rejected_witness :
  let sys := run Sample.generateId Sample.threeFiles DEFAULT_CONVERSION_CONFIG
               0 new Sample.cancelledWhileReading in
  let fr := mkFrame (Sample.png "a.png" 1000) DEFAULT_CONVERSION_CONFIG "id0" 0 0 in
  let sys' := step Sample.generateId Sample.threeFiles DEFAULT_CONVERSION_CONFIG sys
                (10, ReadSettled 0 (ImageLoaded Sample.image)) in
  consistent (converter sys)
  /\ promises (converter sys) !! 0%nat = Some (Pending fr AtRead)
  /\ aborted (converter sys) (abortController fr) = true
  /\ completes 0 AtRead (ReadSettled 0 (ImageLoaded Sample.image))
  /\ promises (converter sys') !! 0%nat
     = Some (Rejected (ConversionErrorObject (cancelledError fr 10)))
  /\ promises (converter sys') !! 1%nat = promises (converter sys) !! 1%nat.
Proof.
  intros sys fr sys'.
  assert (Hinv : consistent (converter sys)).
  { apply consistent_run, consistent_new. }
  split; [exact Hinv|]. split; [reflexivity|]. split; [reflexivity|].
  split; [reflexivity|].
  destruct (cancelled_conversion_is_rejected Sample.generateId Sample.threeFiles
              DEFAULT_CONVERSION_CONFIG sys 0%nat fr AtRead 10
              (ReadSettled 0 (ImageLoaded Sample.image)) Hinv eq_refl eq_refl eq_refl)
    as ((Hk & _ & _ & Hothers & _) & _).
  split; [exact Hk|]. apply Hothers. discriminate.
Defined.

End CancellationProofs.

(** ** ImageConverter: a batch with a failing file *)

Module BatchProofs.
Import ImageConverter Trace.

Section OneChunk.
Variable generateId : nat -> string.
Variable files : list FileInfo.t.
Variable config : ConversionConfig.t.
Hypothesis one_chunk :
  Z.of_nat (length files) <= ConversionConfig.maxConcurrentConversions config.

Lemma Promise_all_fulfilled (this : t) (batchPromises : list nat)
    (values : list ConversionResult.t) :
  mapM (valueOf this) batchPromises = Some values ->
  Forall (fun k => exists r, promises this !! k = Some (Fulfilled r)) batchPromises.
Proof.
  intros Hvalues. apply mapM_Some in Hvalues.
  induction Hvalues as [|k r ps values' Hk _ IH].
  - apply Forall_nil_2.
  - apply Forall_cons_2; [|exact IH]. exists r. unfold valueOf in Hk.
    destruct (promises this !! k) as [[| |]|]; by inversion Hk.
Qed.

Lemma oneChunk_step (sys : System) (input : Z * Input) (batchPromises : list nat) :
  oneChunk batchPromises sys ->
  oneChunk batchPromises (step generateId files config sys input).
Proof.
  unfold oneChunk. intros Hinv.
  assert (Hkeep : driver (step generateId files config sys input) = driver sys ->
                  oneChunk batchPromises (step generateId files config sys input)).
  { unfold oneChunk. intros ->. destruct (driver sys); [done| |done].
    destruct Hinv as [?|Hall]; [by left|right].
    eapply Forall_impl; [exact Hall|]. intros k [r Hk]. exists r.
    by apply (CancellationProofs.step_settled generateId files config sys input k _ Hk). }
  destruct input as [now [| | | | | | |]]; try (apply Hkeep; reflexivity).
  destruct (driver sys) as [i results ps| |] eqn:Hdrv;
    [|apply Hkeep; unfold step, afterBatch; simpl; by rewrite Hdrv..].
  destruct Hinv as (-> & -> & ->).
  unfold step, afterBatch. cbn [fst snd]. rewrite Hdrv. unfold Promise_all.
  assert (Hend : forall results,
            loopTest generateId files config
              (0 + ConversionConfig.maxConcurrentConversions config) results now
              (converter sys)
            = mkSystem (converter sys) (Returned results)).
  { intros results. unfold loopTest.
    destruct (Z.ltb_spec (0 + ConversionConfig.maxConcurrentConversions config)
                (Z.of_nat (length files))); [lia|done]. }
  destruct (existsb _ _); [rewrite Hend; by left|].
  destruct (mapM _ _) as [values|] eqn:Hvalues; [|by rewrite Hdrv].
  rewrite Hend. right. simpl. by eapply Promise_all_fulfilled.
Qed.

Lemma oneChunk_steps (inputs : list (Z * Input)) (sys : System) (batchPromises : list nat) :
  oneChunk batchPromises sys ->
  oneChunk batchPromises (fold_left (step generateId files config) inputs sys).
Proof.
  revert sys. induction inputs as [|input inputs IH]; intros sys Hinv; [done|].
  simpl. by apply IH, oneChunk_step.
Qed.

Lemma oneChunk_convertMultiple (now : Z) (this : t) :
  oneChunk (seq (length (promises this)) (length files))
    (convertMultiple generateId files config now this).
Proof.
  unfold oneChunk, convertMultiple. destruct (ensureNotDisposed this); [|done].
  unfold loopTest. destruct (Z.ltb_spec 0 (Z.of_nat (length files))); [|by left].
  simpl. split; [done|]. split; [done|]. f_equal. unfold slice.
  destruct (Z.ltb_spec 0 0); [lia|].
  destruct (Z.ltb_spec (0 + ConversionConfig.maxConcurrentConversions config) 0); [lia|].
  rewrite (Z.min_r (0 + _) _), (Z.min_l 0 _) by lia.
  rewrite Z.sub_0_r, Nat2Z.id. simpl. by rewrite firstn_all.
Qed.

(** When the whole batch fits in one chunk, [convertMultiple] returns
    values only if every conversion of the batch succeeded: with one
    conversion rejected it returns the empty list, whatever the other
    conversions do and in whatever order the operations complete. *)
Lemma one_chunk_with_a_rejection_returns_nothing (now : Z) (this : t)
    (inputs : list (Z * Input)) (k : nat) (reason : JsValue)
    (results : list ConversionResult.t) :
  let sys := run generateId files config now this inputs in
  (length (promises this) <= k < length (promises this) + length files)%nat ->
  promises (converter sys) !! k = Some (Rejected reason) ->
  driver sys = Returned results ->
  results = [].
Proof.
  intros sys Hk Hrej Hret.
  pose proof (oneChunk_steps inputs _ _ (oneChunk_convertMultiple now this)) as Hinv.
  fold (run generateId files config now this inputs) in Hinv. fold sys in Hinv.
  unfold oneChunk in Hinv. rewrite Hret in Hinv. destruct Hinv as [?|Hall]; [done|].
  rewrite Forall_forall in Hall. destruct (Hall k) as [r Hr]; [|congruence].
  apply elem_of_seq. lia.
Qed.

End OneChunk.

(** The continuation of [convertMultiple] after a rejection: with one
    promise of the awaited chunk rejected it goes to the next test of the
    loop with the results it had, whatever the other promises of the chunk
    are. *)
Lemma afterBatch_on_a_rejection (generateId : nat -> string) (files : list FileInfo.t)
    (config : ConversionConfig.t) (sys : System) (i : Z)
    (results : list ConversionResult.t) (batchPromises : list nat) (k : nat)
    (reason : JsValue) (now : Z) :
  driver sys = Suspended i results batchPromises ->
  k ∈ batchPromises ->
  promises (converter sys) !! k = Some (Rejected reason) ->
  step generateId files config sys (now, BatchSettled)
  = loopTest generateId files config
      (i + ConversionConfig.maxConcurrentConversions config) results now (converter sys).
Proof.
  intros Hdrv Hk Hrej. unfold step, afterBatch. cbn [fst snd]. rewrite Hdrv.
  unfold Promise_all.
  assert (existsb (isRejected (converter sys)) batchPromises = true) as ->; [|done].
  apply existsb_exists. exists k. split; [by apply list_elem_of_In|].
  unfold isRejected. by rewrite Hrej.
Qed.

(** C1 on the code: three files in one chunk, the second of which cannot
    be decoded.  The other two are converted and two completion events
    and one error event are emitted, but [convertMultiple] returns no
    result at all: the rejection of [Promise.all] discards the two
    results of the chunk. *)
Theorem convertMultiple_drops_the_results_of_a_chunk_with_a_failure :
  let sys := run Sample.generateId Sample.threeFiles DEFAULT_CONVERSION_CONFIG
               0 new Sample.secondFileCorrupt in
  driver sys = Returned []
  /\ map (fun p => match p with Fulfilled _ => true | _ => false end)
       (promises (converter sys)) = [true; false; true]
  /\ length (omap completeOnly (map snd (log (converter sys)))) = 2%nat
  /\ map ConversionError.fileName (omap errorOnly (map snd (log (converter sys))))
     = ["b.png"%string].
Proof. repeat split. Qed.

(** C2 on the code: four files, two at a time, the first of which cannot
    be decoded.  As soon as it is rejected the batch goes on with the
    second chunk, while the second file of the first chunk is still being
    read: three conversions are in flight with a limit of two. *)
Theorem convertMultiple_starts_the_next_chunk_before_the_previous_one_settles :
  let sys := run Sample.generateId Sample.fourFiles Sample.twoAtATime
               0 new Sample.firstFileCorrupt in
  ConversionConfig.maxConcurrentConversions Sample.twoAtATime = 2
  /\ driver sys = Suspended 2 [] [2; 3]%nat
  /\ map isPending (promises (converter sys)) = [false; true; true; true]
  /\ inFlight (converter sys) = 3%nat
  /\ map (fun e => (fst e, match snd e with
                           | ProgressEvent p => Some (ProgressInfo.stage p)
                           | _ => None
                           end)) (log (converter sys))
     = [(0, Some READING); (1, Some READING); (0, None);
        (2, Some READING); (3, Some READING)]%nat.
Proof. repeat split. Qed.

End BatchProofs.

(** ** ImageConverter: the registry follows the pending calls *)

Module RegistryProofs.
Import ImageConverter Trace.

Section WithIds.
Variable generateId : nat -> string.
Hypothesis generateId_inj : forall m n, generateId m = generateId n -> m = n.

Lemma registered_new : registered generateId new.
Proof.
  split; [|split; [|split]]; simpl.
  - intros id c H. by rewrite lookup_empty in H.
  - intros k fr at_ H. by destruct k.
  - intros j k frj atj frk atk H. by destruct j.
  - done.
Qed.

Lemma aborted_push (this : t) (c : nat) (b : bool) :
  (c < length (controllers this))%nat ->
  aborted (set_controllers (fun cs => push cs b) this) c = aborted this c.
Proof. intros Hc. unfold aborted, push. simpl. by rewrite lookup_app_l. Qed.

Lemma registered_convertToWebP (file : FileInfo.t) (config : ConversionConfig.t)
    (now : Z) (this : t) :
  registered generateId this ->
  registered generateId (convertToWebP generateId file config now this).
Proof.
  intros (Hreg & Hpend & Hdist & Hdisp). unfold convertToWebP, ensureNotDisposed.
  destruct (isDisposed this) eqn:Hlive.
  - (* refused: only a rejected promise is pushed *)
    split; [|split; [|split]]; simpl; [exact Hreg| | |intros _; by apply Hdisp].
    + intros k fr at_ Hk. unfold push in Hk.
      apply lookup_app_Some in Hk as [Hk|[_ Hk]]; [exact (Hpend _ _ _ Hk)|].
      apply list_lookup_singleton_Some in Hk as [_ Hk]. done.
    + intros j k frj atj frk atk Hj Hk. unfold push in Hj, Hk.
      apply lookup_app_Some in Hj as [Hj|[_ Hj]];
        [|apply list_lookup_singleton_Some in Hj as [_ Hj]; done].
      apply lookup_app_Some in Hk as [Hk|[_ Hk]];
        [|apply list_lookup_singleton_Some in Hk as [_ Hk]; done].
      by eapply Hdist.
  - set (c := length (controllers this)).
    split; [|split; [|split]]; simpl; unfold push; rewrite ?length_app; simpl.
    + intros id c' Hid. apply lookup_insert_Some in Hid as [[<- <-]|[_ Hid]].
      * split; [lia|done].
      * destruct (Hreg _ _ Hid). split; [lia|done].
    + intros k fr at_ Hk.
      apply lookup_app_Some in Hk as [Hk|[_ Hk]].
      * destruct (Hpend _ _ _ Hk) as (Hlt & Hid & Hact). split; [lia|]. split; [done|].
        intros Hnot. rewrite lookup_insert_ne.
        -- apply Hact. rewrite <- Hnot. symmetry.
           unfold aborted. simpl. by rewrite lookup_app_l.
        -- rewrite Hid. intros Heq. apply generateId_inj in Heq. subst c. lia.
      * apply list_lookup_singleton_Some in Hk as [_ Hk]. inversion Hk; subst. simpl.
        split; [lia|]. split; [done|]. intros _. by rewrite lookup_insert_eq.
    + intros j k frj atj frk atk Hj Hk Heq.
      apply lookup_app_Some in Hj as [Hj|[Hj1 Hj]];
        apply lookup_app_Some in Hk as [Hk|[Hk1 Hk]].
      * by eapply Hdist.
      * apply list_lookup_singleton_Some in Hk as [_ Hk]. inversion Hk; subst.
        destruct (Hpend _ _ _ Hj) as (Hlt & _). simpl in Heq. subst c. lia.
      * apply list_lookup_singleton_Some in Hj as [_ Hj]. inversion Hj; subst.
        destruct (Hpend _ _ _ Hk) as (Hlt & _). simpl in Heq. subst c. lia.
      * apply list_lookup_singleton_Some in Hj as [Hj0 _].
        apply list_lookup_singleton_Some in Hk as [Hk0 _]. lia.
    + intros Hd. congruence.
Qed.

(** Call [k] moves to its next [await]. *)
Lemma registered_advance (this this' : t) (k : nat) (fr : Frame) (at_ at' : AwaitPoint) :
  promises this !! k = Some (Pending fr at_) ->
  promises this' = <[k := Pending fr at']> (promises this) ->
  activeConversions this' = activeConversions this ->
  controllers this' = controllers this ->
  isDisposed this' = isDisposed this ->
  registered generateId this -> registered generateId this'.
Proof.
  intros Hk Hps Hact Hctrl Hdis (Hreg & Hpend & Hdist & Hdisp).
  assert (Hold : forall j frj atj, promises this' !! j = Some (Pending frj atj) ->
                 exists atj', promises this !! j = Some (Pending frj atj')).
  { intros j frj atj Hj. rewrite Hps in Hj.
    apply list_lookup_insert_Some in Hj as [(<- & Heq & _)|[_ Hj]]; [|by eexists].
    inversion Heq; subst. by eexists. }
  unfold registered, aborted. rewrite Hact, Hctrl, Hdis.
  split; [done|]. split; [|split; [|done]].
  - intros j frj atj Hj. destruct (Hold _ _ _ Hj) as [atj' Hj']. exact (Hpend _ _ _ Hj').
  - intros i j fri ati frj atj Hi Hj.
    destruct (Hold _ _ _ Hi) as [ati' Hi']. destruct (Hold _ _ _ Hj) as [atj' Hj'].
    by eapply Hdist.
Qed.

(** Call [k] settles and its identifier is deleted. *)
Lemma registered_settle (this this' : t) (k : nat) (fr : Frame) (at_ : AwaitPoint)
    (p' : Promise) :
  promises this !! k = Some (Pending fr at_) ->
  isPending p' = false ->
  promises this' = <[k := p']> (promises this) ->
  activeConversions this' = delete (conversionId fr) (activeConversions this) ->
  controllers this' = controllers this ->
  isDisposed this' = isDisposed this ->
  registered generateId this -> registered generateId this'.
Proof.
  intros Hk Hp' Hps Hact Hctrl Hdis (Hreg & Hpend & Hdist & Hdisp).
  assert (Hold : forall j frj atj, promises this' !! j = Some (Pending frj atj) ->
                 j <> k /\ promises this !! j = Some (Pending frj atj)).
  { intros j frj atj Hj. rewrite Hps in Hj.
    apply list_lookup_insert_Some in Hj as [(<- & Heq & _)|[Hne Hj]]; [by subst p'|done]. }
  unfold registered, aborted. rewrite Hact, Hctrl, Hdis.
  split; [|split; [|split]].
  - intros id c Hid. apply lookup_delete_Some in Hid as [_ Hid]. by apply Hreg.
  - intros j frj atj Hj. destruct (Hold _ _ _ Hj) as [Hne Hj'].
    destruct (Hpend _ _ _ Hj') as (Hlt & Hid & Hreg').
    split; [done|]. split; [done|]. intros Hnot. rewrite lookup_delete_ne; [by apply Hreg'|].
    destruct (Hpend _ _ _ Hk) as (_ & Hidk & _). rewrite Hid, Hidk. intros Heq.
    apply generateId_inj in Heq. apply Hne. symmetry. by eapply Hdist.
  - intros i j fri ati frj atj Hi Hj.
    destruct (Hold _ _ _ Hi) as [_ Hi']. destruct (Hold _ _ _ Hj) as [_ Hj'].
    by eapply Hdist.
  - intros Hd. rewrite (Hdisp Hd). apply delete_empty.
Qed.

Lemma registered_catchBlock (this : t) (k : nat) (fr : Frame) (at_ : AwaitPoint)
    (error : JsValue) (now : Z) :
  promises this !! k = Some (Pending fr at_) ->
  registered generateId this -> registered generateId (catchBlock k fr error now this).
Proof. intros Hk. by eapply (registered_settle this _ k fr at_ (Rejected _)). Qed.

Lemma registered_afterRead (this : t) (k : nat) (outcome : ReadOutcome) (now : Z) :
  registered generateId this -> registered generateId (afterRead k outcome now this).
Proof.
  intros Hinv. unfold afterRead.
  destruct (promises this !! k) as [[fr [| |]| |]|] eqn:Hk; try done.
  destruct outcome; [|by eapply registered_catchBlock].
  destruct (checkAborted _ _); [|by eapply registered_catchBlock].
  by eapply (registered_advance this _ k fr AtRead).
Qed.

Lemma registered_afterProcess (this : t) (k : nat) (now : Z) :
  registered generateId this -> registered generateId (afterProcess k now this).
Proof.
  intros Hinv. unfold afterProcess.
  destruct (promises this !! k) as [[fr [|imageData|]| |]|] eqn:Hk; try done.
  destruct (checkAborted _ _); [|by eapply registered_catchBlock].
  by eapply (registered_advance this _ k fr (AtProcess imageData)).
Qed.

Lemma registered_afterBlob (this : t) (k : nat) (blob : option Blob.t)
    (originalUrl convertedUrl : string) (now : Z) :
  registered generateId this ->
  registered generateId (afterBlob k blob originalUrl convertedUrl now this).
Proof.
  intros Hinv. unfold afterBlob.
  destruct (promises this !! k) as [[fr [| |processedImage]| |]|] eqn:Hk; try done.
  destruct blob; [|by eapply registered_catchBlock].
  destruct (checkAborted _ _); [|by eapply registered_catchBlock].
  by eapply (registered_settle this _ k fr (AtBlob processedImage) (Fulfilled _)).
Qed.

Lemma aborted_abort (this : t) (c c' : nat) :
  aborted (abort c this) c'
  = if decide (c = c' /\ (c < length (controllers this))%nat) then true
    else aborted this c'.
Proof.
  unfold aborted, abort. simpl. case_decide as Hc.
  - destruct Hc as [<- Hlt]. by rewrite list_lookup_insert_eq.
  - destruct (decide (c = c')) as [<-|Hne].
    + rewrite list_insert_ge; [done|]. lia.
    + by rewrite list_lookup_insert_ne.
Qed.

Lemma registered_cancelConversion (this : t) (id : string) :
  registered generateId this ->
  registered generateId (orUnchanged this (cancelConversion id this)).
Proof.
  intros Hinv. pose proof Hinv as (Hreg & Hpend & Hdist & Hdisp).
  unfold cancelConversion, ensureNotDisposed.
  destruct (isDisposed this) eqn:Hlive; [done|]. simpl.
  destruct (activeConversions this !! id) as [c|] eqn:Hid; [|done]. simpl.
  destruct (Hreg _ _ Hid) as [Hc ->].
  split; [|split; [|split]]; simpl; rewrite ?length_insert.
  - intros id' c' Hid'. apply lookup_delete_Some in Hid' as [_ Hid']. by apply Hreg.
  - intros k fr at_ Hk. destruct (Hpend _ _ _ Hk) as (Hlt & Hidk & Hact).
    split; [done|]. split; [done|].
    change (aborted (set_activeConversions (delete (generateId c)) (abort c this))
              (abortController fr))
      with (aborted (abort c this) (abortController fr)).
    rewrite aborted_abort. case_decide as Hdec; [done|]. intros Hnot.
    rewrite lookup_delete_ne; [by apply Hact|].
    rewrite Hidk. intros Heq. apply generateId_inj in Heq. apply Hdec. by subst.
  - exact Hdist.
  - intros Hd. congruence.
Qed.

Lemma abort_all (this : t) (m : gmap string nat) :
  let this' := map_fold (fun _ controller this => abort controller this) this m in
  length (controllers this') = length (controllers this)
  /\ (forall c, aborted this c = true -> aborted this' c = true)
  /\ (forall id c, m !! id = Some c -> (c < length (controllers this))%nat ->
       aborted this' c = true).
Proof.
  apply (map_fold_weak_ind (fun r m =>
    length (controllers r) = length (controllers this)
    /\ (forall c, aborted this c = true -> aborted r c = true)
    /\ (forall id c, m !! id = Some c -> (c < length (controllers this))%nat ->
         aborted r c = true))).
  - split; [done|]. split; [done|]. intros id c H. by rewrite lookup_empty in H.
  - intros i x m' r Hi (Hlen & Hkeep & Hall). split; [|split].
    + simpl. by rewrite length_insert.
    + intros c Hc. rewrite aborted_abort. case_decide; [done|]. by apply Hkeep.
    + intros id c Hid Hc. rewrite aborted_abort. case_decide as Hdec; [done|].
      apply lookup_insert_Some in Hid as [[<- <-]|[_ Hid]].
      * exfalso. apply Hdec. split; [done|]. by rewrite Hlen.
      * by eapply Hall.
Qed.

Lemma registered_cancelAllConversions (this : t) :
  registered generateId this ->
  registered generateId (orUnchanged this (cancelAllConversions this)).
Proof.
  intros Hinv. pose proof Hinv as (Hreg & Hpend & Hdist & Hdisp).
  unfold cancelAllConversions, ensureNotDisposed.
  destruct (isDisposed this) eqn:Hlive; [done|]. simpl.
  destruct (ImageConverterProofs.promises_abort_all this (activeConversions this))
    as (Hps & _ & _).
  destruct (abort_all this (activeConversions this)) as (Hlen & Hkeep & Hall).
  split; [|split; [|split]]; simpl.
  - intros id c H. by rewrite lookup_empty in H.
  - intros k fr at_ Hk. rewrite Hps in Hk. destruct (Hpend _ _ _ Hk) as (Hlt & Hid & Hact).
    rewrite Hlen. split; [done|]. split; [done|]. intros Hnot. exfalso.
    change (aborted (map_fold (fun _ controller this => abort controller this)
                       this (activeConversions this)) (abortController fr) = false)
      in Hnot.
    destruct (aborted this (abortController fr)) eqn:Hab.
    + rewrite (Hkeep _ Hab) in Hnot. done.
    + rewrite (Hall _ _ (Hact eq_refl) Hlt) in Hnot. done.
  - intros j k frj atj frk atk. rewrite Hps. apply Hdist.
  - done.
Qed.

Lemma registered_dispose (this : t) :
  registered generateId this -> registered generateId (dispose this).
Proof.
  intros Hinv. unfold dispose. destruct (isDisposed this) eqn:Hlive; [done|].
  pose proof (registered_cancelAllConversions this Hinv) as H.
  unfold cancelAllConversions, ensureNotDisposed in *. rewrite Hlive in *. simpl in *.
  destruct H as (Hreg & Hpend & Hdist & _). by split; [|split; [|split]].
Qed.

Section WithBatch.
Variable files : list FileInfo.t.
Variable config : ConversionConfig.t.

Lemma registered_calls (batch : list FileInfo.t) (now : Z) (this : t) :
  registered generateId this ->
  registered generateId
    (fold_left (fun this file => convertToWebP generateId file config now this) batch this).
Proof.
  revert this. induction batch as [|file batch IH]; intros this Hinv; [done|].
  simpl. by apply IH, registered_convertToWebP.
Qed.

Lemma registered_loopTest (i : Z) (results : list ConversionResult.t) (now : Z) (this : t) :
  registered generateId this ->
  registered generateId (converter (loopTest generateId files config i results now this)).
Proof.
  intros Hinv. unfold loopTest. destruct (_ <? _); [|done]. by apply registered_calls.
Qed.

Lemma registered_step (sys : System) (input : Z * Input) :
  registered generateId (converter sys) ->
  registered generateId (converter (step generateId files config sys input)).
Proof.
  intros Hinv. destruct input as [now []]; unfold step; simpl.
  - by apply registered_afterRead.
  - by apply registered_afterProcess.
  - by apply registered_afterBlob.
  - unfold afterBatch. destruct (driver sys); [|done|done].
    destruct (Promise_all _ _); [done| |]; by apply registered_loopTest.
  - by apply registered_cancelConversion.
  - by apply registered_cancelAllConversions.
  - by apply registered_dispose.
  - by apply registered_convertToWebP.
Qed.

Lemma registered_run (now : Z) (this : t) (inputs : list (Z * Input)) :
  registered generateId this ->
  registered generateId (converter (run generateId files config now this inputs)).
Proof.
  intros Hinv. unfold run.
  assert (Hstart : registered generateId (converter (convertMultiple generateId files config now this))).
  { unfold convertMultiple. destruct (ensureNotDisposed this); [|done].
    by apply registered_loopTest. }
  revert Hstart. generalize (convertMultiple generateId files config now this).
  induction inputs as [|input inputs IH]; intros sys Hsys; [done|].
  simpl. by apply IH, registered_step.
Qed.

End WithBatch.

(** With identifiers that do not repeat, [cancelConversion] of the
    identifier of a pending call leaves its controller aborted, changes no
    promise and logs nothing: at its next [checkAborted] the call is
    rejected as cancelled. *)
Lemma cancelConversion_aborts_the_pending_call (this : t) (k : nat) (fr : Frame)
    (at_ : AwaitPoint) :
  registered generateId this ->
  promises this !! k = Some (Pending fr at_) ->
  let this' := orUnchanged this (cancelConversion (conversionId fr) this) in
  aborted this' (abortController fr) = true
  /\ promises this' = promises this
  /\ log this' = log this.
Proof.
  intros (Hreg & Hpend & Hdist & Hdisp) Hk.
  destruct (Hpend _ _ _ Hk) as (Hlt & Hid & Hact).
  unfold cancelConversion, ensureNotDisposed.
  destruct (isDisposed this) eqn:Hlive; simpl.
  - split; [|done]. destruct (aborted this (abortController fr)) eqn:Hab; [done|].
    specialize (Hact eq_refl). rewrite (Hdisp eq_refl), lookup_empty in Hact. done.
  - destruct (activeConversions this !! conversionId fr) as [c|] eqn:Hc; simpl.
    + split; [|done]. destruct (Hreg _ _ Hc) as [Hc' Heq]. rewrite Hid in Heq.
      apply generateId_inj in Heq. subst c.
      change (aborted (abort (abortController fr) this) (abortController fr) = true).
      rewrite aborted_abort. by rewrite decide_True.
    + split; [|done]. destruct (aborted this (abortController fr)) eqn:Hab; [done|].
      specialize (Hact eq_refl). congruence.
Qed.

End WithIds.
End RegistryProofs.

(** ** Statistics *)

Module ApplicationProofs.
Import Application.

Lemma statsAfter_snoc (stats : ConversionStats.t) (events : list ImageConverter.Event)
    (ev : ImageConverter.Event) :
  statsAfter stats (events ++ [ev]) = handle (statsAfter stats events) ev.
Proof. unfold statsAfter. by rewrite fold_left_app. Qed.

(** C4: whatever outcomes have been received so far, a further success
    adds one to the number of files processed and to the number of
    successes, adds the original size minus the converted size to the
    bytes saved, and replaces each average [avg] by
    [(avg * (n - 1) + value) / n] for the new number [n] of successes,
    leaving the number of failures; a further failure adds one to the
    number of failures and leaves the five other fields. *)
Theorem stats_after_each_outcome (stats : ConversionStats.t)
    (events : list ImageConverter.Event) :
  let s := statsAfter stats events in
  (forall r,
      let s' := statsAfter stats (events ++ [ImageConverter.CompleteEvent r]) in
      let n := ConversionStats.successfulConversions s + 1 in
      ConversionStats.totalFilesProcessed s' = ConversionStats.totalFilesProcessed s + 1
      /\ ConversionStats.successfulConversions s' = n
      /\ ConversionStats.totalSizeReduced s'
         = ConversionStats.totalSizeReduced s
           + (FileInfo.size (ConversionResult.originalFile r)
              - ConversionResult.convertedSize r)
      /\ ConversionStats.averageCompressionRatio s'
         = ((ConversionStats.averageCompressionRatio s * Z2F (n - 1)
             + ConversionResult.compressionRatio r) / Z2F n)%float
      /\ ConversionStats.averageProcessingTime s'
         = ((ConversionStats.averageProcessingTime s * Z2F (n - 1)
             + Z2F (ConversionResult.processingTime r)) / Z2F n)%float
      /\ ConversionStats.failedConversions s' = ConversionStats.failedConversions s)
  /\ (forall e,
        let s' := statsAfter stats (events ++ [ImageConverter.ErrorEvent e]) in
        ConversionStats.failedConversions s' = ConversionStats.failedConversions s + 1
        /\ ConversionStats.totalFilesProcessed s' = ConversionStats.totalFilesProcessed s
        /\ ConversionStats.successfulConversions s'
           = ConversionStats.successfulConversions s
        /\ ConversionStats.totalSizeReduced s' = ConversionStats.totalSizeReduced s
        /\ ConversionStats.averageCompressionRatio s'
           = ConversionStats.averageCompressionRatio s
        /\ ConversionStats.averageProcessingTime s'
           = ConversionStats.averageProcessingTime s).
Proof.
  intros s. split.
  - intros r s' n. subst s'. rewrite statsAfter_snoc. fold s. by repeat split.
  - intros e s'. subst s'. rewrite statsAfter_snoc. fold s. by repeat split.
Qed.

(** The scenario of the specification: two successes with ratios 50 and
    30 give an average of 40, and a failure after them leaves the average
    and counts one failure. *)
Example stats_of_two_successes_and_a_failure :
  let s2 := statsAfter initializeStats
              [ImageConverter.CompleteEvent (Sample.resultWithRatio 50);
               ImageConverter.CompleteEvent (Sample.resultWithRatio 30)] in
  let s3 := handle s2 (ImageConverter.ErrorEvent Sample.someError) in
  ConversionStats.averageCompressionRatio s2 = 40%float
  /\ ConversionStats.averageCompressionRatio s3 = 40%float
  /\ ConversionStats.failedConversions s2 = 0
  /\ ConversionStats.failedConversions s3 = 1
  /\ ConversionStats.successfulConversions s3 = 2
  /\ ConversionStats.totalSizeReduced s3 = 1000.
Proof. repeat split. Qed.

End ApplicationProofs.
